(** * P3Loops: edges on a square with identified sides

    A shallow embedding of [p3loops.py] and the properties of its
    predicates.

    Numbers.  A position is a Python number; the embedding takes it to be an
    exact rational ([Q]): comparisons are the numeric ones ([==] is [Qeq],
    so [1/2] and [2/4] are the same position, as [0.5 == 0.5] is), and
    [+], [-] and [%] are exact.  Python's [int] positions behave exactly so;
    for [float] positions the embedding leaves rounding out.

    With [float] positions [+] and [-] round to nearest: they stay
    monotone and are exact when the result is a float, but two nearby
    positions can get one coordinate (West at [2^-60] sits at 400.0, like
    West at 0).  [%] is exact on [[0, 400]], where the coordinates of
    well-formed points lie, and not outside.  The statements on
    coordinates below are therefore about what rounding keeps (bounds,
    order in the weak sense, the values at the corners), and the
    statements on [_segments_intersect] that need an exact [%] take their
    arguments from [[0, 400]].

    Strings.  A [str] is a [string] whose characters are the code points
    0..255; [str.lower] and [str.strip] are written out for that range. *)

From Stdlib Require Import Ascii String.
From Stdlib Require Import Bool List Arith ZArith QArith Qround Lia Lqa.
Import ListNotations.

Local Open Scope Q_scope.

(** ** Numeric primitives *)

Module PyNum.

(** [x < y] on numbers, as a boolean. *)
Definition ltb (x y : Q) : bool :=
  match x ?= y with Lt => true | _ => false end.

(** [x <= y]. *)
Definition leb (x y : Q) : bool := Qle_bool x y.

(** [x == y]. *)
Definition eqb (x y : Q) : bool := Qeq_bool x y.

(** [x % m]: Python's remainder, [x - m * floor(x / m)]; for a positive
    [m] the result lies in [[0, m)]. *)
Definition mod_ (x m : Q) : Q := x - m * inject_Z (Qfloor (x / m)).

End PyNum.

(** ** Boundary model *)

(** [class Side(Enum)] *)
Inductive Side : Type := NORTH | EAST | SOUTH | WEST.

Definition Side_eqb (a b : Side) : bool :=
  match a, b with
  | NORTH, NORTH | EAST, EAST | SOUTH, SOUTH | WEST, WEST => true
  | _, _ => false
  end.

(** [@dataclass(frozen=True) class Point]: the two fields.  The check of
    [__post_init__] is in [mk_Point] below; [Point_wf] is the invariant it
    establishes. *)
Record Point : Type := Build_Point { side : Side; position : Q }.

(** The only exception the module raises. *)
Inductive exn : Type := ValueError.

Definition result (A : Type) : Type := (exn + A)%type.

(** [Point(side, position)], with [__post_init__]:
    [if not 0 <= self.position <= 100: raise ValueError(...)]. *)
Definition mk_Point (s : Side) (pos : Q) : result Point :=
  if negb (PyNum.leb 0 pos && PyNum.leb pos 100)
  then inl ValueError
  else inr (Build_Point s pos).

Definition Point_wf (p : Point) : Prop :=
  0 <= position p /\ position p <= 100.

(** The generated [__eq__] of the dataclass: field by field. *)
Definition Point_eqb (a b : Point) : bool :=
  Side_eqb (side a) (side b) && PyNum.eqb (position a) (position b).

(** [Point.canonicalize].  The source builds the new point with [Point(...)],
    whose check cannot fail: the position is the one of [self]
    (see [canonicalize_constructs]). *)
Definition canonicalize (self : Point) : Point :=
  match side self with
  | NORTH => Build_Point EAST (position self)
  | SOUTH => Build_Point WEST (position self)
  | _ => self
  end.

(** [Point.is_equivalent] *)
Definition is_equivalent (self other : Point) : bool :=
  Point_eqb (canonicalize self) (canonicalize other).

(** ** Edges and paths *)

(** [@dataclass(frozen=True) class Edge] *)
Record Edge : Type := Build_Edge { start : Point; end_ : Point }.

Definition Edge_wf (e : Edge) : Prop := Point_wf (start e) /\ Point_wf (end_ e).

(** [Edge.connects_to] *)
Definition connects_to (self other : Edge) : bool :=
  is_equivalent (end_ self) (start other).

(** The body of [for i in range(len(edges) - 1)] of [is_valid_path], run
    over the indices still to visit.  [None] is an [IndexError] of
    [edges[i]] or [edges[i + 1]]. *)
Fixpoint is_valid_path_loop (edges : list Edge) (idx : list nat) : option bool :=
  match idx with
  | [] => Some true
  | i :: rest =>
      match nth_error edges i, nth_error edges (i + 1) with
      | Some ei, Some ei1 =>
          if negb (connects_to ei ei1) then Some false
          else is_valid_path_loop edges rest
      | _, _ => None
      end
  end.

(** [is_valid_path] *)
Definition is_valid_path (edges : list Edge) : option bool :=
  if Nat.eqb (length edges) 0 then Some true
  else is_valid_path_loop edges (seq 0 (length edges - 1)).

(** ** Boundary parameterization *)

(** [_get_boundary_coordinate] *)
Definition _get_boundary_coordinate (point : Point) : Q :=
  match side point with
  | NORTH => position point
  | EAST => 100 + (100 - position point)
  | SOUTH => 200 + position point
  | WEST => 300 + (100 - position point)
  end.

(** ** Crossing predicate *)

(** The nested [point_in_arc] of [_segments_intersect]. *)
Definition point_in_arc (point arc_start arc_end : Q) : bool :=
  let point := PyNum.mod_ point 400 in
  let arc_start := PyNum.mod_ arc_start 400 in
  let arc_end := PyNum.mod_ arc_end 400 in
  if PyNum.eqb arc_start arc_end then false
  else if PyNum.ltb arc_start arc_end
       then PyNum.ltb arc_start point && PyNum.ltb point arc_end
       else PyNum.ltb arc_start point || PyNum.ltb point arc_end.

(** [_segments_intersect]; [!=] on booleans is [xorb]. *)
Definition _segments_intersect (a1 a2 b1 b2 : Q) : bool :=
  let a1 := PyNum.mod_ a1 400 in
  let a2 := PyNum.mod_ a2 400 in
  let b1 := PyNum.mod_ b1 400 in
  let b2 := PyNum.mod_ b2 400 in
  let b1_in_a := point_in_arc b1 a1 a2 in
  let b2_in_a := point_in_arc b2 a1 a2 in
  let a1_in_b := point_in_arc a1 b1 b2 in
  let a2_in_b := point_in_arc a2 b1 b2 in
  xorb b1_in_a b2_in_a && xorb a1_in_b a2_in_b.

(** [edges_cross] *)
Definition edges_cross (edge1 edge2 : Edge) : bool :=
  if is_equivalent (start edge1) (start edge2)
     || is_equivalent (start edge1) (end_ edge2)
     || is_equivalent (end_ edge1) (start edge2)
     || is_equivalent (end_ edge1) (end_ edge2)
  then false
  else
    let a1 := _get_boundary_coordinate (start edge1) in
    let a2 := _get_boundary_coordinate (end_ edge1) in
    let b1 := _get_boundary_coordinate (start edge2) in
    let b2 := _get_boundary_coordinate (end_ edge2) in
    _segments_intersect a1 a2 b1 b2.

(** The inner loop of [is_noncrossing]: [for j in range(i + 1, len(edges))]
    over the indices still to visit; [Some true] stands for falling out of
    the loop. *)
Fixpoint is_noncrossing_inner (edges : list Edge) (i : nat) (js : list nat)
  : option bool :=
  match js with
  | [] => Some true
  | j :: rest =>
      match nth_error edges i, nth_error edges j with
      | Some ei, Some ej =>
          if edges_cross ei ej then Some false
          else is_noncrossing_inner edges i rest
      | _, _ => None
      end
  end.

(** The outer loop: [for i in range(len(edges))]. *)
Fixpoint is_noncrossing_outer (edges : list Edge) (is_ : list nat) : option bool :=
  match is_ with
  | [] => Some true
  | i :: rest =>
      match is_noncrossing_inner edges i
              (seq (i + 1) (length edges - (i + 1))) with
      | Some true => is_noncrossing_outer edges rest
      | r => r
      end
  end.

(** [is_noncrossing] *)
Definition is_noncrossing (edges : list Edge) : option bool :=
  is_noncrossing_outer edges (seq 0 (length edges)).

(** [is_noncrossing_path]: [is_valid_path(edges) and is_noncrossing(edges)];
    [and] does not evaluate its right operand when the left one is false. *)
Definition is_noncrossing_path (edges : list Edge) : option bool :=
  match is_valid_path edges with
  | Some true => is_noncrossing edges
  | r => r
  end.

(** ** Construction helpers *)

Module PyStr.

Local Open Scope nat_scope.

(** [c.isspace()] for a code point below 256: tab to carriage return,
    the four separators 28..31, space, NEL (133) and no-break space (160). *)
Definition isspace (c : ascii) : bool :=
  let n := nat_of_ascii c in
  ((9 <=? n) && (n <=? 13)) || ((28 <=? n) && (n <=? 32))
  || (n =? 133) || (n =? 160).

(** [c.lower()] for a code point below 256: [A-Z] and the accented
    capitals 192..222 (without the multiplication sign, 215) move up
    by 32. *)
Definition lower_char (c : ascii) : ascii :=
  let n := nat_of_ascii c in
  if ((65 <=? n) && (n <=? 90))
     || ((192 <=? n) && (n <=? 222) && negb (n =? 215))
  then ascii_of_nat (n + 32)
  else c.

(** [s.lower()] *)
Fixpoint lower (s : string) : string :=
  match s with
  | EmptyString => EmptyString
  | String c r => String (lower_char c) (lower r)
  end.

(** [s.lstrip()] *)
Fixpoint lstrip (s : string) : string :=
  match s with
  | EmptyString => EmptyString
  | String c r => if isspace c then lstrip r else s
  end.

(** [s.rstrip()] *)
Fixpoint rstrip (s : string) : string :=
  match s with
  | EmptyString => EmptyString
  | String c r =>
      match rstrip r with
      | EmptyString => if isspace c then EmptyString else String c EmptyString
      | r' => String c r'
      end
  end.

(** [s.strip()] *)
Definition strip (s : string) : string := rstrip (lstrip s).

(** [s in (t1, t2, ...)]: membership in a tuple of strings, by [==]. *)
Definition in_tuple (s : string) (t : list string) : bool :=
  existsb (String.eqb s) t.

End PyStr.

(** [parse_side] *)
Definition parse_side (s : string) : result Side :=
  let s := PyStr.strip (PyStr.lower s) in
  if PyStr.in_tuple s ["n"; "north"]%string then inr NORTH
  else if PyStr.in_tuple s ["e"; "east"]%string then inr EAST
  else if PyStr.in_tuple s ["s"; "south"]%string then inr SOUTH
  else if PyStr.in_tuple s ["w"; "west"]%string then inr WEST
  else inl ValueError.

(** [make_point]: the side is parsed first, then the point is built. *)
Definition make_point (side_ : string) (pos : Q) : result Point :=
  match parse_side side_ with
  | inl e => inl e
  | inr sd => mk_Point sd pos
  end.

(** [make_edge]: the arguments of [Edge(...)] are evaluated left to right. *)
Definition make_edge (start_side : string) (start_pos : Q)
                     (end_side : string) (end_pos : Q) : result Edge :=
  match make_point start_side start_pos with
  | inl e => inl e
  | inr p1 =>
      match make_point end_side end_pos with
      | inl e => inl e
      | inr p2 => inr (Build_Edge p1 p2)
      end
  end.

(** ** The spec's wording, for comparison with the code *)

Module Spec.

(** The arc rule of the crossing test, on arguments already reduced
    modulo 400: false if [s == e]; if [s < e], [s < x < e]; if [s > e],
    [x > s or x < e]. *)
Definition point_in_arc (x s e : Q) : bool :=
  if PyNum.eqb s e then false
  else if PyNum.ltb s e then PyNum.ltb s x && PyNum.ltb x e
  else if PyNum.ltb e s then PyNum.ltb s x || PyNum.ltb x e
  else false.

(** Exactly one of two conditions holds. *)
Definition exactly_one (p q : bool) : bool :=
  (p && negb q) || (negb p && q).

(** Two arcs cross iff exactly one end of each lies inside the other. *)
Definition arcs_cross (a1 a2 b1 b2 : Q) : bool :=
  exactly_one (point_in_arc b1 a1 a2) (point_in_arc b2 a1 a2)
  && exactly_one (point_in_arc a1 b1 b2) (point_in_arc a2 b1 b2).

(** The points of a list are pairwise non-equivalent. *)
Fixpoint pairwise_inequivalent (ps : list Point) : bool :=
  match ps with
  | [] => true
  | p :: r =>
      forallb (fun q => negb (is_equivalent p q)) r && pairwise_inequivalent r
  end.

(** Some endpoint of [e1] is equivalent to some endpoint of [e2]. *)
Definition share_endpoint (e1 e2 : Edge) : Prop :=
  exists p q, In p [start e1; end_ e1] /\ In q [start e2; end_ e2]
              /\ is_equivalent p q = true.

(** A degenerate chord: both ends at one boundary coordinate modulo 400. *)
Definition degenerate (e : Edge) : Prop :=
  PyNum.mod_ (_get_boundary_coordinate (start e)) 400
  == PyNum.mod_ (_get_boundary_coordinate (end_ e)) 400.

(** The eight recognized spellings, by side. *)
Definition spellings (sd : Side) : list string :=
  match sd with
  | NORTH => ["n"; "north"]
  | EAST => ["e"; "east"]
  | SOUTH => ["s"; "south"]
  | WEST => ["w"; "west"]
  end%string.

Definition all_spellings : list string :=
  spellings NORTH ++ spellings EAST ++ spellings SOUTH ++ spellings WEST.

Local Open Scope nat_scope.

(** [c] is the lower-case letter [l] or its capital. *)
Definition case_variant (c l : ascii) : bool :=
  Ascii.eqb c l || (nat_of_ascii c + 32 =? nat_of_ascii l).

(** [s] is an upper/mixed-case form of the lower-case word [w]: the same
    letters, each in either case. *)
Fixpoint case_form (s w : string) : bool :=
  match s, w with
  | EmptyString, EmptyString => true
  | String c s', String l w' => case_variant c l && case_form s' w'
  | _, _ => false
  end.

(** [s] consists of whitespace only. *)
Fixpoint all_space (s : string) : bool :=
  match s with
  | EmptyString => true
  | String c r => PyStr.isspace c && all_space r
  end.

(** [l] is one of [a]..[z]. *)
Definition lower_letter (l : ascii) : bool :=
  (97 <=? nat_of_ascii l) && (nat_of_ascii l <=? 122).

(** [w] is written in lower-case letters only. *)
Fixpoint lower_word (w : string) : bool :=
  match w with
  | EmptyString => true
  | String l r => lower_letter l && lower_word r
  end.

(** [s] is a case form of the word [w] with whitespace around it. *)
Definition padded_case_form (s w : string) : Prop :=
  exists l m r, s = (l ++ m ++ r)%string
                /\ all_space l = true /\ all_space r = true
                /\ case_form m w = true.

(** [s] is read as the side [sd]. *)
Definition recognized (s : string) (sd : Side) : Prop :=
  exists w, In w (spellings sd) /\ padded_case_form s w.

End Spec.

(** ** Auxiliary notions for further properties *)

(** [Side.X.value]: the string each member of the enumeration carries. *)
Definition Side_value (sd : Side) : string :=
  match sd with
  | NORTH => "north"
  | EAST => "east"
  | SOUTH => "south"
  | WEST => "west"
  end%string.

(** The numbers of a list have pairwise different residues modulo 400. *)
Fixpoint distinct_mod_400 (xs : list Q) : bool :=
  match xs with
  | [] => true
  | x :: r =>
      forallb (fun y => negb (PyNum.eqb (PyNum.mod_ x 400) (PyNum.mod_ y 400))) r
      && distinct_mod_400 r
  end.

(** The boundary coordinates of the four endpoints of two edges. *)
Definition endpoint_coordinates (e1 e2 : Edge) : list Q :=
  [_get_boundary_coordinate (start e1); _get_boundary_coordinate (end_ e1);
   _get_boundary_coordinate (start e2); _get_boundary_coordinate (end_ e2)].

(** The example lists of the demonstration under [__main__]. *)
Definition edges1 : list Edge :=
  [Build_Edge (Build_Point SOUTH 10) (Build_Point EAST 30);
   Build_Edge (Build_Point NORTH 30) (Build_Point WEST 10)].

Definition edges2 : list Edge :=
  [Build_Edge (Build_Point SOUTH 10) (Build_Point EAST 30);
   Build_Edge (Build_Point NORTH 50) (Build_Point WEST 10)].

Definition edges3 : list Edge :=
  [Build_Edge (Build_Point NORTH 10) (Build_Point SOUTH 10);
   Build_Edge (Build_Point EAST 50) (Build_Point WEST 50)].

Definition edges4 : list Edge :=
  [Build_Edge (Build_Point NORTH 20) (Build_Point NORTH 40);
   Build_Edge (Build_Point SOUTH 60) (Build_Point SOUTH 80)].

(** A valid path of three edges whose first and last edges cross. *)
Definition zigzag : list Edge :=
  [Build_Edge (Build_Point NORTH 10) (Build_Point SOUTH 10);
   Build_Edge (Build_Point SOUTH 10) (Build_Point EAST 50);
   Build_Edge (Build_Point EAST 50) (Build_Point WEST 50)].

(** The edge run the other way. *)
Definition reversed (e : Edge) : Edge := Build_Edge (end_ e) (start e).

(** The coordinate, reduced modulo 400, of the corner two neighbouring sides
    meet at; [None] for a side with itself or with the opposite side. *)
Definition corner_between (s t : Side) : option Q :=
  match s, t with
  | NORTH, EAST | EAST, NORTH => Some 100
  | EAST, SOUTH | SOUTH, EAST => Some 200
  | SOUTH, WEST | WEST, SOUTH => Some 300
  | WEST, NORTH | NORTH, WEST => Some 0
  | _, _ => None
  end.

(** The numbers of a list lie in [[0, 400]], as boundary coordinates of
    well-formed points do. *)
Definition within_boundary (xs : list Q) : bool :=
  forallb (fun x => PyNum.leb 0 x && PyNum.leb x 400) xs.

(** The side belongs to the glued pair North/East (otherwise to
    South/West). *)
Definition on_north_east (sd : Side) : bool :=
  match sd with NORTH | EAST => true | SOUTH | WEST => false end.

(** The side is traversed clockwise by growing positions. *)
Definition runs_clockwise (sd : Side) : bool :=
  match sd with NORTH | SOUTH => true | EAST | WEST => false end.

(** The quarter of the boundary circle a side is drawn on. *)
Definition quarter_start (sd : Side) : Q :=
  match sd with NORTH => 0 | EAST => 100 | SOUTH => 200 | WEST => 300 end.

Example parse_side_NORTH : parse_side "NoRtH" = inr NORTH.
Proof. reflexivity. Qed.

Example parse_side_invalid : parse_side "invalid" = inl ValueError.
Proof. reflexivity. Qed.

Example demo_edges_cross :
  edges_cross (Build_Edge (Build_Point NORTH 10) (Build_Point SOUTH 10))
              (Build_Edge (Build_Point EAST 50) (Build_Point WEST 50)) = true.
Proof. reflexivity. Qed.

Example demo_noncrossing :
  is_noncrossing [Build_Edge (Build_Point NORTH 20) (Build_Point NORTH 40);
                  Build_Edge (Build_Point SOUTH 60) (Build_Point SOUTH 80)]
  = Some true.
Proof. reflexivity. Qed.

Example demo_valid_path :
  is_noncrossing_path
    [Build_Edge (Build_Point SOUTH 10) (Build_Point EAST 30);
     Build_Edge (Build_Point NORTH 30) (Build_Point WEST 10)] = Some true.
Proof. reflexivity. Qed.

(** ** Numbers: comparisons and remainder *)

Section Numbers.

Lemma ltb_lt (x y : Q) : PyNum.ltb x y = true <-> x < y.
Proof.
  unfold PyNum.ltb. rewrite Qlt_alt.
  destruct (x ?= y); split; congruence.
Qed.

Lemma ltb_nlt (x y : Q) : PyNum.ltb x y = false <-> ~ x < y.
Proof.
  rewrite <- ltb_lt. destruct (PyNum.ltb x y); split; congruence.
Qed.

Lemma eqb_eq (x y : Q) : PyNum.eqb x y = true <-> x == y.
Proof. apply Qeq_bool_iff. Qed.

Lemma leb_le (x y : Q) : PyNum.leb x y = true <-> x <= y.
Proof. apply Qle_bool_iff. Qed.

#[global] Instance ltb_proper : Proper (Qeq ==> Qeq ==> eq) PyNum.ltb.
Proof.
  intros x x' Hx y y' Hy. unfold PyNum.ltb. now rewrite Hx, Hy.
Qed.

#[global] Instance eqb_proper : Proper (Qeq ==> Qeq ==> eq) PyNum.eqb.
Proof.
  intros x x' Hx y y' Hy. unfold PyNum.eqb. now rewrite Hx, Hy.
Qed.

#[global] Instance mod_proper : Proper (Qeq ==> Qeq ==> Qeq) PyNum.mod_.
Proof.
  intros x x' Hx m m' Hm. unfold PyNum.mod_.
  assert (Hf : Qfloor (x / m) = Qfloor (x' / m')).
  { apply Qfloor_comp. apply Qdiv_comp; assumption. }
  rewrite Hf. apply Qminus_comp; [assumption|].
  apply Qmult_comp; [assumption | reflexivity].
Qed.

(** The floor brackets its argument. *)
Lemma floor_bracket (q : Q) :
  inject_Z (Qfloor q) <= q /\ q < inject_Z (Qfloor q) + 1.
Proof.
  split; [apply Qfloor_le|].
  generalize (Qlt_floor q). rewrite inject_Z_plus. auto.
Qed.

(** [x % 400] lies in [[0, 400)]. *)
Lemma mod_400_range (x : Q) :
  0 <= PyNum.mod_ x 400 /\ PyNum.mod_ x 400 < 400.
Proof.
  unfold PyNum.mod_.
  destruct (floor_bracket (x / 400)) as [Hlo Hhi].
  assert (Hx : x == 400 * (x / 400)) by (field).
  set (f := inject_Z (Qfloor (x / 400))) in *.
  set (q := x / 400) in *.
  split; lra.
Qed.

(** A number of [[0, 1)] has floor 0. *)
Lemma floor_unit (q : Q) : 0 <= q -> q < 1 -> Qfloor q = 0%Z.
Proof.
  intros H0 H1. destruct (floor_bracket q) as [Hlo Hhi].
  assert (Ha : inject_Z (Qfloor q) < inject_Z 1).
  { change (inject_Z 1) with 1. lra. }
  assert (Hb : inject_Z (-1) < inject_Z (Qfloor q)).
  { change (inject_Z (-1)) with (-(1)). lra. }
  rewrite <- Zlt_Qlt in Ha, Hb. lia.
Qed.

(** [%] leaves a number of [[0, 400)] alone. *)
Lemma mod_400_small (x : Q) : 0 <= x -> x < 400 -> PyNum.mod_ x 400 == x.
Proof.
  intros H0 H1. unfold PyNum.mod_.
  rewrite (floor_unit (x / 400)).
  - simpl. ring.
  - apply Qle_shift_div_l; lra.
  - apply Qlt_shift_div_r; lra.
Qed.

(** Reducing twice is reducing once. *)
Lemma mod_400_idem (x : Q) :
  PyNum.mod_ (PyNum.mod_ x 400) 400 == PyNum.mod_ x 400.
Proof.
  destruct (mod_400_range x). now apply mod_400_small.
Qed.

(** [400 % 400 == 0]. *)
Lemma mod_400_400 : PyNum.mod_ 400 400 == 0.
Proof. reflexivity. Qed.

End Numbers.

(** ** The identification of sides *)

Section Equivalence.

Lemma Side_eqb_eq (a b : Side) : Side_eqb a b = true <-> a = b.
Proof. destruct a, b; simpl; split; congruence. Qed.

Lemma Side_eqb_sym (a b : Side) : Side_eqb a b = Side_eqb b a.
Proof. now destruct a, b. Qed.

Lemma Point_eqb_sym (a b : Point) : Point_eqb a b = Point_eqb b a.
Proof.
  unfold Point_eqb, PyNum.eqb.
  now rewrite Side_eqb_sym, Qeq_bool_comm.
Qed.

Lemma is_equivalent_sym (a b : Point) : is_equivalent a b = is_equivalent b a.
Proof. apply Point_eqb_sym. Qed.

Lemma is_equivalent_refl (a : Point) : is_equivalent a a = true.
Proof.
  unfold is_equivalent, Point_eqb, PyNum.eqb.
  rewrite Qeq_bool_refl, andb_true_r. now apply Side_eqb_eq.
Qed.

(** The constructor call of [canonicalize] passes the position check. *)
Lemma canonicalize_constructs (p : Point) :
  Point_wf p ->
  mk_Point (side (canonicalize p)) (position p) = inr (canonicalize p).
Proof.
  intros [H0 H1]. unfold mk_Point.
  apply leb_le in H0, H1. rewrite H0, H1.
  now destruct p as [[] pos].
Qed.

(** Equivalent points: canonical sides agree and positions are equal. *)
Lemma is_equivalent_iff (a b : Point) :
  is_equivalent a b = true <->
  side (canonicalize a) = side (canonicalize b) /\ position a == position b.
Proof.
  unfold is_equivalent, Point_eqb.
  rewrite andb_true_iff, Side_eqb_eq, eqb_eq.
  destruct a as [[] pa], b as [[] pb]; simpl; tauto.
Qed.

End Equivalence.

(** ** The crossing test *)

Section Crossing.

(** The code's [point_in_arc] reduces its arguments again; on reduced
    arguments it is the arc rule. *)
Lemma point_in_arc_reduced (x s e : Q) :
  point_in_arc (PyNum.mod_ x 400) (PyNum.mod_ s 400) (PyNum.mod_ e 400)
  = Spec.point_in_arc (PyNum.mod_ x 400) (PyNum.mod_ s 400) (PyNum.mod_ e 400).
Proof.
  unfold point_in_arc, Spec.point_in_arc. cbv zeta.
  rewrite !(eqb_proper _ _ (mod_400_idem s) _ _ (mod_400_idem e)).
  rewrite !(ltb_proper _ _ (mod_400_idem s) _ _ (mod_400_idem e)).
  rewrite !(ltb_proper _ _ (mod_400_idem s) _ _ (mod_400_idem x)).
  rewrite !(ltb_proper _ _ (mod_400_idem x) _ _ (mod_400_idem e)).
  set (x' := PyNum.mod_ x 400). set (s' := PyNum.mod_ s 400).
  set (e' := PyNum.mod_ e 400).
  destruct (PyNum.eqb s' e') eqn:E; [reflexivity|].
  destruct (PyNum.ltb s' e') eqn:L; [reflexivity|].
  destruct (PyNum.ltb e' s') eqn:G; [reflexivity|].
  exfalso. apply ltb_nlt in L, G.
  assert (H : s' == e') by lra.
  apply eqb_eq in H. congruence.
Qed.

Lemma xorb_exactly_one (p q : bool) : xorb p q = Spec.exactly_one p q.
Proof. now destruct p, q. Qed.

(** A degenerate arc contains nothing. *)
Lemma point_in_arc_degenerate (x s e : Q) :
  PyNum.mod_ s 400 == PyNum.mod_ e 400 -> point_in_arc x s e = false.
Proof.
  intros H. unfold point_in_arc.
  apply eqb_eq in H. now rewrite H.
Qed.

(** Only the residues of the arguments matter. *)
Lemma point_in_arc_mod_eq (x x' s e : Q) :
  PyNum.mod_ x 400 == PyNum.mod_ x' 400 ->
  point_in_arc x s e = point_in_arc x' s e.
Proof.
  intros H. unfold point_in_arc. cbv zeta.
  rewrite (ltb_proper _ _ (Qeq_refl (PyNum.mod_ s 400)) _ _ H).
  now rewrite (ltb_proper _ _ H _ _ (Qeq_refl (PyNum.mod_ e 400))).
Qed.

Lemma _segments_intersect_sym (a1 a2 b1 b2 : Q) :
  _segments_intersect a1 a2 b1 b2 = _segments_intersect b1 b2 a1 a2.
Proof. unfold _segments_intersect. apply andb_comm. Qed.

Lemma _segments_intersect_degenerate (a1 a2 b1 b2 : Q) :
  PyNum.mod_ a1 400 == PyNum.mod_ a2 400 ->
  _segments_intersect a1 a2 b1 b2 = false.
Proof.
  intros H. unfold _segments_intersect.
  assert (H' : PyNum.mod_ (PyNum.mod_ a1 400) 400
               == PyNum.mod_ (PyNum.mod_ a2 400) 400)
    by (rewrite !mod_400_idem; exact H).
  now rewrite !(point_in_arc_degenerate _ _ _ H').
Qed.

(** The endpoint test of [edges_cross] does not depend on the order of
    the two edges. *)
Lemma share_endpoint_sym (e1 e2 : Edge) :
  is_equivalent (start e1) (start e2) || is_equivalent (start e1) (end_ e2)
  || is_equivalent (end_ e1) (start e2) || is_equivalent (end_ e1) (end_ e2)
  = is_equivalent (start e2) (start e1) || is_equivalent (start e2) (end_ e1)
    || is_equivalent (end_ e2) (start e1) || is_equivalent (end_ e2) (end_ e1).
Proof.
  rewrite (is_equivalent_sym (start e2) (start e1)),
          (is_equivalent_sym (start e2) (end_ e1)),
          (is_equivalent_sym (end_ e2) (start e1)),
          (is_equivalent_sym (end_ e2) (end_ e1)).
  destruct (is_equivalent (start e1) (start e2)),
           (is_equivalent (start e1) (end_ e2)),
           (is_equivalent (end_ e1) (start e2)),
           (is_equivalent (end_ e1) (end_ e2)); reflexivity.
Qed.

Lemma edges_cross_sym (e1 e2 : Edge) : edges_cross e1 e2 = edges_cross e2 e1.
Proof.
  unfold edges_cross. rewrite (share_endpoint_sym e1 e2).
  now rewrite _segments_intersect_sym.
Qed.

Lemma edges_cross_shared (e1 e2 : Edge) :
  is_equivalent (start e1) (start e2) || is_equivalent (start e1) (end_ e2)
  || is_equivalent (end_ e1) (start e2) || is_equivalent (end_ e1) (end_ e2)
  = true -> edges_cross e1 e2 = false.
Proof. intros H. unfold edges_cross. now rewrite H. Qed.

Lemma edges_cross_degenerate (e1 e2 : Edge) :
  PyNum.mod_ (_get_boundary_coordinate (start e1)) 400
  == PyNum.mod_ (_get_boundary_coordinate (end_ e1)) 400 ->
  edges_cross e1 e2 = false.
Proof.
  intros H. unfold edges_cross.
  destruct (_ || _); [reflexivity|].
  now apply _segments_intersect_degenerate.
Qed.

End Crossing.

(** ** Properties of the crossing predicate *)

(** C1: for two edges whose four endpoints are pairwise non-equivalent,
    [edges_cross] is the arc rule on the four boundary coordinates reduced
    modulo 400: it is true iff exactly one end of the second edge lies in
    the arc of the first and exactly one end of the first lies in the arc
    of the second. *)
Theorem edges_cross_arc_rule (e1 e2 : Edge) :
  Spec.pairwise_inequivalent [start e1; end_ e1; start e2; end_ e2] = true ->
  let a1 := PyNum.mod_ (_get_boundary_coordinate (start e1)) 400 in
  let a2 := PyNum.mod_ (_get_boundary_coordinate (end_ e1)) 400 in
  let b1 := PyNum.mod_ (_get_boundary_coordinate (start e2)) 400 in
  let b2 := PyNum.mod_ (_get_boundary_coordinate (end_ e2)) 400 in
  edges_cross e1 e2 = Spec.arcs_cross a1 a2 b1 b2
  /\ (edges_cross e1 e2 = true <->
      Spec.exactly_one (Spec.point_in_arc b1 a1 a2)
                       (Spec.point_in_arc b2 a1 a2) = true
      /\ Spec.exactly_one (Spec.point_in_arc a1 b1 b2)
                          (Spec.point_in_arc a2 b1 b2) = true).
Proof.
  intros Hpw a1 a2 b1 b2.
  assert (Heq : edges_cross e1 e2 = Spec.arcs_cross a1 a2 b1 b2).
  { simpl in Hpw.
    rewrite !andb_true_r, !andb_true_iff, !negb_true_iff in Hpw.
    destruct Hpw as [[_ [Hss Hse]] [[Hes Hee] _]].
    unfold edges_cross. rewrite Hss, Hse, Hes, Hee. simpl.
    unfold _segments_intersect, Spec.arcs_cross.
    fold a1 a2 b1 b2. subst a1 a2 b1 b2.
    now rewrite !point_in_arc_reduced, !xorb_exactly_one. }
  split; [exact Heq|].
  rewrite Heq. unfold Spec.arcs_cross. apply andb_true_iff.
Qed.

Lemma edges_cross_arc_rule_witness :
  Spec.pairwise_inequivalent
    [Build_Point NORTH 10; Build_Point SOUTH 10;
     Build_Point EAST 50; Build_Point WEST 50] = true
  /\ edges_cross (Build_Edge (Build_Point NORTH 10) (Build_Point SOUTH 10))
                 (Build_Edge (Build_Point EAST 50) (Build_Point WEST 50))
     = Spec.arcs_cross (PyNum.mod_ 10 400) (PyNum.mod_ (200 + 10) 400)
                       (PyNum.mod_ (100 + (100 - 50)) 400)
                       (PyNum.mod_ (300 + (100 - 50)) 400).
Proof.
  split; [reflexivity|].
  exact (proj1 (edges_cross_arc_rule
                  (Build_Edge (Build_Point NORTH 10) (Build_Point SOUTH 10))
                  (Build_Edge (Build_Point EAST 50) (Build_Point WEST 50))
                  eq_refl)).
Defined.

(** C2: two edges with an endpoint of one equivalent to an endpoint of the
    other never cross, whatever their arcs. *)
Theorem edges_cross_share_endpoint (e1 e2 : Edge) :
  Spec.share_endpoint e1 e2 -> edges_cross e1 e2 = false.
Proof.
  intros (p & q & Hp & Hq & Hpq). apply edges_cross_shared.
  simpl in Hp, Hq.
  destruct Hp as [<- | [<- | []]], Hq as [<- | [<- | []]];
    rewrite Hpq; rewrite ?orb_true_r; reflexivity.
Qed.

(** The chords 10-210 and 190-350 intersect as arcs, but North at 10 and
    East at 10 are one vertex. *)
Lemma edges_cross_share_endpoint_witness :
  is_equivalent (Build_Point NORTH 10) (Build_Point EAST 10) = true
  /\ _segments_intersect 10 210 190 350 = true
  /\ edges_cross (Build_Edge (Build_Point NORTH 10) (Build_Point SOUTH 10))
                 (Build_Edge (Build_Point EAST 10) (Build_Point WEST 50))
     = false.
Proof.
  split; [reflexivity|]. split; [reflexivity|].
  apply (edges_cross_share_endpoint
           (Build_Edge (Build_Point NORTH 10) (Build_Point SOUTH 10))
           (Build_Edge (Build_Point EAST 10) (Build_Point WEST 50))).
  exists (Build_Point NORTH 10), (Build_Point EAST 10). simpl. auto.
Defined.

(** C5: a degenerate chord crosses nothing, in either argument position. *)
Theorem edges_cross_degenerate_chord (e1 e2 : Edge) :
  Spec.degenerate e1 ->
  edges_cross e1 e2 = false /\ edges_cross e2 e1 = false.
Proof.
  intros H. split.
  - now apply edges_cross_degenerate.
  - rewrite edges_cross_sym. now apply edges_cross_degenerate.
Qed.

(** West at 0 has coordinate 400 and North at 0 has coordinate 0: one
    corner, a chord of length zero on the circle. *)
Lemma edges_cross_degenerate_chord_witness :
  Spec.degenerate (Build_Edge (Build_Point WEST 0) (Build_Point NORTH 0))
  /\ edges_cross (Build_Edge (Build_Point WEST 0) (Build_Point NORTH 0))
                 (Build_Edge (Build_Point EAST 50) (Build_Point WEST 50))
     = false
  /\ edges_cross (Build_Edge (Build_Point EAST 50) (Build_Point WEST 50))
                 (Build_Edge (Build_Point WEST 0) (Build_Point NORTH 0))
     = false.
Proof.
  split; [reflexivity|].
  apply (edges_cross_degenerate_chord
           (Build_Edge (Build_Point WEST 0) (Build_Point NORTH 0))
           (Build_Edge (Build_Point EAST 50) (Build_Point WEST 50))).
  reflexivity.
Defined.

(** C10: [edges_cross] is symmetric in its two edges (for all edges, so in
    particular for those built from well-formed points). *)
Theorem edges_cross_symmetric (e1 e2 : Edge) :
  edges_cross e1 e2 = edges_cross e2 e1.
Proof.
  unfold edges_cross. rewrite (share_endpoint_sym e1 e2).
  destruct (_ || _); [reflexivity | apply _segments_intersect_sym].
Qed.

(** ** The boundary parameterization *)

Section Parameterization.

Lemma coordinate_bounds (p : Point) :
  Point_wf p ->
  0 <= _get_boundary_coordinate p /\ _get_boundary_coordinate p <= 400.
Proof.
  unfold Point_wf, _get_boundary_coordinate.
  destruct p as [[] pos]; cbn [side position]; intros [H0 H1]; split; lra.
Qed.

End Parameterization.



(** C4, as the spec has it, fails: a well-formed point can sit at
    coordinate 400, outside [[0, 400)]. *)
Lemma west_corner_coordinate_400 :
  mk_Point WEST 0 = inr (Build_Point WEST 0)
  /\ Point_wf (Build_Point WEST 0)
  /\ _get_boundary_coordinate (Build_Point WEST 0) == 400
  /\ ~ _get_boundary_coordinate (Build_Point WEST 0) < 400.
Proof.
  repeat split; discriminate.
Qed.

(** C4, amended: the coordinate of a well-formed point lies in the closed
    interval [[0, 400]]; off the West side it is below 400, and its residue
    modulo 400, which is what the crossing test uses, is in [[0, 400)]. *)
Theorem boundary_coordinate_range (p : Point) :
  Point_wf p ->
  0 <= _get_boundary_coordinate p <= 400
  /\ (side p <> WEST -> _get_boundary_coordinate p < 400)
  /\ 0 <= PyNum.mod_ (_get_boundary_coordinate p) 400 < 400.
Proof.
  intros H. split; [now apply coordinate_bounds|].
  split; [|apply mod_400_range].
  unfold Point_wf, _get_boundary_coordinate in *.
  destruct p as [[] pos]; cbn [side position] in *; destruct H as [H0 H1];
    intros Hs; solve [lra | now elim Hs].
Qed.

Lemma boundary_coordinate_range_witness :
  Point_wf (Build_Point EAST 25)
  /\ 0 <= _get_boundary_coordinate (Build_Point EAST 25) <= 400.
Proof.
  assert (H : Point_wf (Build_Point EAST 25)) by (split; discriminate).
  split; [exact H|].
  apply (boundary_coordinate_range (Build_Point EAST 25) H).
Defined.

(** ** Construction *)

(** C8: building a point raises [ValueError] exactly when the position is
    outside [[0, 100]], and otherwise yields the point with the given
    fields; 0 and 100 are accepted, -1 and 101 are refused. *)
Theorem mk_Point_checks_position (s : Side) (pos : Q) :
  (mk_Point s pos = inl ValueError <-> ~ (0 <= pos <= 100))
  /\ (mk_Point s pos = inr (Build_Point s pos) <-> 0 <= pos <= 100)
  /\ mk_Point s 0 = inr (Build_Point s 0)
  /\ mk_Point s 100 = inr (Build_Point s 100)
  /\ mk_Point s (-1) = inl ValueError
  /\ mk_Point s 101 = inl ValueError.
Proof.
  assert (Hok : 0 <= pos <= 100 -> mk_Point s pos = inr (Build_Point s pos)).
  { intros [H0 H1]. unfold mk_Point.
    apply leb_le in H0, H1. now rewrite H0, H1. }
  assert (Herr : ~ (0 <= pos <= 100) -> mk_Point s pos = inl ValueError).
  { intros H. unfold mk_Point.
    destruct (PyNum.leb 0 pos) eqn:H0; [|reflexivity].
    destruct (PyNum.leb pos 100) eqn:H1; [|reflexivity].
    exfalso. apply H. split; now apply leb_le. }
  assert (Hdec : 0 <= pos <= 100 \/ ~ (0 <= pos <= 100)).
  { destruct (Qlt_le_dec pos 0); [right; lra|].
    destruct (Qlt_le_dec 100 pos); [right; lra | left; lra]. }
  split.
  { split; [|exact Herr].
    intros E H. rewrite (Hok H) in E. discriminate. }
  split.
  { split; [|exact Hok].
    intros E. destruct Hdec as [H | H]; [exact H|].
    rewrite (Herr H) in E. discriminate. }
  repeat split.
Qed.

(** ** Paths *)

Section Paths.

Local Open Scope nat_scope.

Variable edges : list Edge.

Lemma lookup_in_range (i : nat) :
  i < length edges -> exists e, nth_error edges i = Some e.
Proof.
  intros H. destruct (nth_error edges i) as [e|] eqn:E; [now exists e|].
  apply nth_error_None in E. lia.
Qed.

Lemma lookup_bound (i : nat) (e : Edge) :
  nth_error edges i = Some e -> i < length edges.
Proof. intros H. apply nth_error_Some. congruence. Qed.

(** The loop of [is_valid_path] over in-range indices raises nothing and
    answers whether every visited pair connects. *)
Lemma is_valid_path_loop_spec (idx : list nat) :
  (forall i, In i idx -> i + 1 < length edges) ->
  exists b, is_valid_path_loop edges idx = Some b
    /\ (b = true <->
        forall i ei ej, In i idx -> nth_error edges i = Some ei ->
                        nth_error edges (i + 1) = Some ej ->
                        connects_to ei ej = true).
Proof.
  induction idx as [|i rest IH]; intros Hr.
  - exists true. split; [reflexivity|]. split; [intros _ i ei ej []|reflexivity].
  - destruct (lookup_in_range i) as [ei Hi].
    { specialize (Hr i (or_introl eq_refl)). lia. }
    destruct (lookup_in_range (i + 1)) as [ej Hj].
    { apply Hr. now left. }
    destruct IH as (b & Hb & Hiff).
    { intros k Hk. apply Hr. now right. }
    simpl. rewrite Hi, Hj.
    destruct (connects_to ei ej) eqn:Hc; simpl.
    + exists b. split; [exact Hb|]. rewrite Hiff. split.
      * intros H k ek ek' [<- | Hk] Hk1 Hk2; [congruence | eauto].
      * intros H k ek ek' Hk. apply H. now right.
    + exists false. split; [reflexivity|]. split; [discriminate|].
      intros H. rewrite <- Hc.
      apply (H i ei ej); [now left | assumption | assumption].
Qed.

(** [is_valid_path] raises nothing, and is true exactly when every two
    neighbours connect. *)
Lemma is_valid_path_spec :
  exists b, is_valid_path edges = Some b
    /\ (b = true <->
        forall i ei ej, nth_error edges i = Some ei ->
                        nth_error edges (i + 1) = Some ej ->
                        connects_to ei ej = true).
Proof.
  unfold is_valid_path. destruct (Nat.eqb_spec (length edges) 0) as [H0 | H0].
  - exists true. split; [reflexivity|]. split; [|reflexivity].
    intros _ i ei ej Hi. apply lookup_bound in Hi. lia.
  - destruct (is_valid_path_loop_spec (seq 0 (length edges - 1)))
      as (b & Hb & Hiff).
    { intros i Hi. apply in_seq in Hi. lia. }
    exists b. split; [exact Hb|]. rewrite Hiff. split.
    + intros H i ei ej Hi Hj. apply (H i); auto.
      apply in_seq. apply lookup_bound in Hj. lia.
    + intros H i ei ej _. apply H.
Qed.

(** The inner loop of [is_noncrossing], for an in-range [i] and in-range
    indices [js]. *)
Lemma is_noncrossing_inner_spec (i : nat) (js : list nat) :
  i < length edges ->
  (forall j, In j js -> j < length edges) ->
  exists b, is_noncrossing_inner edges i js = Some b
    /\ (b = true <->
        forall j ei ej, In j js -> nth_error edges i = Some ei ->
                        nth_error edges j = Some ej ->
                        edges_cross ei ej = false).
Proof.
  intros Hi. induction js as [|j rest IH]; intros Hr.
  - exists true. split; [reflexivity|]. split; [intros _ j ei ej []|reflexivity].
  - destruct (lookup_in_range i Hi) as [ei Hei].
    destruct (lookup_in_range j) as [ej Hej].
    { apply Hr. now left. }
    destruct IH as (b & Hb & Hiff).
    { intros k Hk. apply Hr. now right. }
    assert (Hstep : is_noncrossing_inner edges i (j :: rest)
                    = if edges_cross ei ej then Some false
                      else is_noncrossing_inner edges i rest)
      by (simpl; now rewrite Hei, Hej).
    rewrite Hstep. destruct (edges_cross ei ej) eqn:Hc.
    + exists false. split; [reflexivity|]. split; [discriminate|].
      intros H. rewrite <- Hc. symmetry.
      apply (H j ei ej); [now left | assumption | assumption].
    + exists b. split; [exact Hb|]. rewrite Hiff. split.
      * intros H k ek ek' [<- | Hk] Hk1 Hk2; [congruence | eauto].
      * intros H k ek ek' Hk. apply H. now right.
Qed.

(** The outer loop, for in-range indices [is_]. *)
Lemma is_noncrossing_outer_spec (is_ : list nat) :
  (forall i, In i is_ -> i < length edges) ->
  exists b, is_noncrossing_outer edges is_ = Some b
    /\ (b = true <->
        forall i j ei ej, In i is_ -> i < j ->
                          nth_error edges i = Some ei ->
                          nth_error edges j = Some ej ->
                          edges_cross ei ej = false).
Proof.
  induction is_ as [|i rest IH]; intros Hr.
  - exists true. split; [reflexivity|].
    split; [intros _ i j ei ej []|reflexivity].
  - destruct (is_noncrossing_inner_spec i
                (seq (i + 1) (length edges - (i + 1)))) as (b & Hb & Hiff).
    { apply Hr. now left. }
    { intros j Hj. apply in_seq in Hj. lia. }
    destruct IH as (b' & Hb' & Hiff').
    { intros k Hk. apply Hr. now right. }
    simpl. rewrite Hb. destruct b.
    + exists b'. split; [exact Hb'|]. rewrite Hiff'.
      destruct Hiff as [Hin _]. specialize (Hin eq_refl). split.
      * intros H k j ek ej [<- | Hk] Hlt Hk1 Hk2; [|eauto].
        apply (Hin j); auto. apply in_seq.
        apply lookup_bound in Hk2. lia.
      * intros H k j ek ej Hk. apply H. now right.
    + exists false. split; [reflexivity|]. split; [discriminate|].
      intros H. apply Hiff. intros j ei ej Hj.
      apply (H i j); [now left | apply in_seq in Hj; lia].
Qed.

(** [is_noncrossing] raises nothing, and is true exactly when no two
    edges at distinct indices cross. *)
Lemma is_noncrossing_spec :
  exists b, is_noncrossing edges = Some b
    /\ (b = true <->
        forall i j ei ej, i <> j ->
                          nth_error edges i = Some ei ->
                          nth_error edges j = Some ej ->
                          edges_cross ei ej = false).
Proof.
  unfold is_noncrossing.
  destruct (is_noncrossing_outer_spec (seq 0 (length edges)))
    as (b & Hb & Hiff).
  { intros i Hi. apply in_seq in Hi. lia. }
  exists b. split; [exact Hb|]. rewrite Hiff. split.
  - intros H i j ei ej Hne Hi Hj.
    destruct (Nat.lt_total i j) as [Hlt | [Heq | Hgt]]; [|contradiction|].
    + apply (H i j); auto. apply in_seq. apply lookup_bound in Hi. lia.
    + rewrite edges_cross_sym. apply (H j i); auto.
      apply in_seq. apply lookup_bound in Hj. lia.
  - intros H i j ei ej _ Hlt. apply H. lia.
Qed.

End Paths.

(** C6: [is_valid_path] is true for the empty sequence and for a single
    edge; in general it returns (no index is out of range) and is true
    exactly when every edge connects to its successor, where [connects_to]
    compares the end of the one with the start of the other up to the
    identification.  Nothing else is checked: a valid path need not close
    up, and may visit a vertex twice. *)
Theorem is_valid_path_adjacent_pairs :
  is_valid_path [] = Some true
  /\ (forall e, is_valid_path [e] = Some true)
  /\ (forall e1 e2, connects_to e1 e2 = is_equivalent (end_ e1) (start e2))
  /\ (forall edges,
        (exists b, is_valid_path edges = Some b)
        /\ (is_valid_path edges = Some true <->
            forall i ei ej, nth_error edges i = Some ei ->
                            nth_error edges (i + 1) = Some ej ->
                            connects_to ei ej = true))
  /\ (let e0 := Build_Edge (Build_Point NORTH 10) (Build_Point SOUTH 50) in
      let e1 := Build_Edge (Build_Point SOUTH 50) (Build_Point EAST 80) in
      is_valid_path [e0; e1] = Some true /\ connects_to e1 e0 = false)
  /\ (let e0 := Build_Edge (Build_Point NORTH 10) (Build_Point SOUTH 50) in
      let e1 := Build_Edge (Build_Point WEST 50) (Build_Point NORTH 10) in
      let e2 := Build_Edge (Build_Point EAST 10) (Build_Point SOUTH 50) in
      is_valid_path [e0; e1; e2] = Some true
      /\ is_equivalent (start e0) (start e2) = true
      /\ is_equivalent (end_ e0) (end_ e2) = true).
Proof.
  split; [reflexivity|].
  split; [reflexivity|].
  split; [reflexivity|].
  split; [|split; repeat split].
  intros edges. destruct (is_valid_path_spec edges) as (b & Hb & Hiff).
  split; [now exists b|].
  rewrite Hb, <- Hiff. split; congruence.
Qed.

(** C7: [is_noncrossing] returns, and is true exactly when no two edges at
    distinct indices cross; [is_noncrossing_path] returns, and is true
    exactly when [is_valid_path] and [is_noncrossing] both are.  The two
    are independent: each of the four combinations of answers occurs. *)
Theorem is_noncrossing_all_pairs :
  (forall edges,
     (exists b, is_noncrossing edges = Some b)
     /\ (is_noncrossing edges = Some true <->
         forall i j ei ej, i <> j ->
                           nth_error edges i = Some ei ->
                           nth_error edges j = Some ej ->
                           edges_cross ei ej = false)
     /\ (exists b, is_noncrossing_path edges = Some b)
     /\ (is_noncrossing_path edges = Some true <->
         is_valid_path edges = Some true /\ is_noncrossing edges = Some true))
  /\ (let es := [Build_Edge (Build_Point SOUTH 10) (Build_Point EAST 30);
                 Build_Edge (Build_Point NORTH 30) (Build_Point WEST 10)] in
      is_valid_path es = Some true /\ is_noncrossing es = Some true)
  /\ (let es := [Build_Edge (Build_Point NORTH 10) (Build_Point SOUTH 10);
                 Build_Edge (Build_Point SOUTH 10) (Build_Point EAST 50);
                 Build_Edge (Build_Point EAST 50) (Build_Point WEST 50)] in
      is_valid_path es = Some true /\ is_noncrossing es = Some false)
  /\ (let es := [Build_Edge (Build_Point NORTH 20) (Build_Point NORTH 40);
                 Build_Edge (Build_Point SOUTH 60) (Build_Point SOUTH 80)] in
      is_valid_path es = Some false /\ is_noncrossing es = Some true)
  /\ (let es := [Build_Edge (Build_Point NORTH 10) (Build_Point SOUTH 10);
                 Build_Edge (Build_Point EAST 50) (Build_Point WEST 50)] in
      is_valid_path es = Some false /\ is_noncrossing es = Some false).
Proof.
  split; [|repeat split].
  intros edges.
  destruct (is_noncrossing_spec edges) as (b & Hb & Hiff).
  destruct (is_valid_path_spec edges) as (v & Hv & _).
  split; [now exists b|].
  split; [rewrite Hb, <- Hiff; split; congruence|].
  unfold is_noncrossing_path. rewrite Hv, Hb.
  split; [destruct v; [now exists b | now exists false]|].
  destruct v; split; try tauto; try discriminate.
Qed.

(** ** Strings: [lower] and [strip] *)

Section Strings.

Local Open Scope string_scope.

Lemma isspace_lower_char (c : ascii) :
  PyStr.isspace (PyStr.lower_char c) = PyStr.isspace c.
Proof. destruct c as [[] [] [] [] [] [] [] []]; reflexivity. Qed.

Lemma lower_char_space (c : ascii) :
  PyStr.isspace c = true -> PyStr.lower_char c = c.
Proof.
  destruct c as [[] [] [] [] [] [] [] []]; intros H;
    solve [reflexivity | discriminate H].
Qed.

Lemma lower_char_is_variant (c : ascii) :
  Spec.lower_letter (PyStr.lower_char c) = true ->
  Spec.case_variant c (PyStr.lower_char c) = true.
Proof.
  destruct c as [[] [] [] [] [] [] [] []]; intros H;
    solve [reflexivity | discriminate H].
Qed.

Lemma lower_char_lower_letter (l : ascii) :
  Spec.lower_letter l = true -> PyStr.lower_char l = l.
Proof.
  destruct l as [[] [] [] [] [] [] [] []]; intros H;
    solve [reflexivity | discriminate H].
Qed.

Lemma lower_char_capital (c : ascii) :
  Spec.lower_letter (ascii_of_nat (nat_of_ascii c + 32)) = true ->
  (nat_of_ascii c + 32 <= 255)%nat ->
  PyStr.lower_char c = ascii_of_nat (nat_of_ascii c + 32).
Proof.
  destruct c as [[] [] [] [] [] [] [] []]; intros H Hle;
    solve [reflexivity | discriminate H | vm_compute in Hle; lia].
Qed.

(** For a lower-case letter [l]: [c] is [l] in either case exactly when
    [c.lower()] is [l]. *)
Lemma case_variant_lower (c l : ascii) :
  Spec.lower_letter l = true ->
  (Spec.case_variant c l = true <-> PyStr.lower_char c = l).
Proof.
  intros Hl. split.
  - unfold Spec.case_variant. rewrite orb_true_iff. intros [H | H].
    + apply Ascii.eqb_eq in H. subst c. now apply lower_char_lower_letter.
    + apply Nat.eqb_eq in H.
      assert (El : l = ascii_of_nat (nat_of_ascii c + 32))
        by (rewrite H; symmetry; apply ascii_nat_embedding).
      rewrite El. apply lower_char_capital; [now rewrite <- El|].
      rewrite H. pose proof (nat_ascii_bounded l). lia.
  - intros <-. now apply lower_char_is_variant.
Qed.

Lemma case_form_lower (m w : string) :
  Spec.lower_word w = true ->
  (Spec.case_form m w = true <-> PyStr.lower m = w).
Proof.
  revert w. induction m as [|c m IH]; intros [|l w] Hw; simpl;
    try (split; [discriminate | discriminate]); try tauto.
  simpl in Hw. apply andb_true_iff in Hw as [Hl Hw].
  rewrite andb_true_iff, (case_variant_lower c l Hl), (IH w Hw).
  split; [intros [<- <-]; reflexivity | intros H; now inversion H].
Qed.

Lemma lower_app (a b : string) :
  PyStr.lower (a ++ b) = PyStr.lower a ++ PyStr.lower b.
Proof. induction a as [|c a IH]; simpl; [reflexivity | now rewrite IH]. Qed.

Lemma lower_app_inv (s a b : string) :
  PyStr.lower s = a ++ b ->
  exists sa sb, s = sa ++ sb /\ PyStr.lower sa = a /\ PyStr.lower sb = b.
Proof.
  revert s. induction a as [|c a IH]; intros s H.
  - exists EmptyString, s. auto.
  - destruct s as [|d s]; [discriminate H|].
    simpl in H. inversion H as [[Hc Hs]].
    destruct (IH s Hs) as (sa & sb & -> & Ha & Hb).
    exists (String d sa), sb. simpl. rewrite Ha, Hc. auto.
Qed.

Lemma all_space_lower (l : string) :
  Spec.all_space (PyStr.lower l) = Spec.all_space l.
Proof.
  induction l as [|c l IH]; simpl; [reflexivity|].
  now rewrite isspace_lower_char, IH.
Qed.

Lemma lower_all_space (l : string) :
  Spec.all_space l = true -> PyStr.lower l = l.
Proof.
  induction l as [|c l IH]; simpl; [reflexivity|].
  intros H. apply andb_true_iff in H as [Hc Hl].
  now rewrite (lower_char_space c Hc), (IH Hl).
Qed.

Lemma lstrip_app_space (l x : string) :
  Spec.all_space l = true -> PyStr.lstrip (l ++ x) = PyStr.lstrip x.
Proof.
  induction l as [|c l IH]; simpl; [reflexivity|].
  intros H. apply andb_true_iff in H as [Hc Hl]. rewrite Hc. auto.
Qed.

Lemma lstrip_decomp (t : string) :
  exists l, t = l ++ PyStr.lstrip t /\ Spec.all_space l = true.
Proof.
  induction t as [|c t (l & Hl & Hs)]; simpl.
  - exists EmptyString. auto.
  - destruct (PyStr.isspace c) eqn:Hc.
    + exists (String c l). simpl. rewrite Hc, Hs, <- Hl. auto.
    + exists EmptyString. auto.
Qed.

Lemma rstrip_all_space (r : string) :
  Spec.all_space r = true -> PyStr.rstrip r = EmptyString.
Proof.
  induction r as [|c r IH]; simpl; [reflexivity|].
  intros H. apply andb_true_iff in H as [Hc Hr].
  now rewrite (IH Hr), Hc.
Qed.

Lemma rstrip_app_space (w r : string) :
  Spec.all_space r = true -> PyStr.rstrip (w ++ r) = PyStr.rstrip w.
Proof.
  intros Hr. induction w as [|c w IH]; simpl.
  - now apply rstrip_all_space.
  - now rewrite IH.
Qed.

Lemma rstrip_decomp (u : string) :
  exists r, u = PyStr.rstrip u ++ r /\ Spec.all_space r = true.
Proof.
  induction u as [|c u (r & Hr & Hs)]; simpl.
  - exists EmptyString. auto.
  - destruct (PyStr.rstrip u) as [|d u'] eqn:E.
    + simpl in Hr. subst r. destruct (PyStr.isspace c) eqn:Hc.
      * exists (String c u). simpl. rewrite Hc, Hs. auto.
      * exists u. auto.
    + exists r. simpl. simpl in Hr. rewrite <- Hr. auto.
Qed.

(** A word that neither begins nor ends in whitespace is what [strip]
    returns exactly on the strings that pad it with whitespace. *)
Lemma strip_padded (t w w' : string) (c : ascii) :
  w = String c w' -> PyStr.isspace c = false -> PyStr.rstrip w = w ->
  (PyStr.strip t = w <->
   exists l r, t = l ++ w ++ r
               /\ Spec.all_space l = true /\ Spec.all_space r = true).
Proof.
  intros Hw Hc Hrs. unfold PyStr.strip. split.
  - intros H. destruct (lstrip_decomp t) as (l & Hl & Hls).
    destruct (rstrip_decomp (PyStr.lstrip t)) as (r & Hr & Hrsp).
    exists l, r. rewrite H in Hr. rewrite <- Hr. auto.
  - intros (l & r & -> & Hl & Hr).
    rewrite (lstrip_app_space _ _ Hl).
    assert (E : PyStr.lstrip (w ++ r) = w ++ r)
      by (rewrite Hw; simpl; now rewrite Hc).
    rewrite E, (rstrip_app_space _ _ Hr). exact Hrs.
Qed.

End Strings.

(** ** The side parser *)

Section Parser.

Local Open Scope string_scope.

Lemma in_tuple_In (s : string) (t : list string) :
  PyStr.in_tuple s t = true <-> In s t.
Proof.
  unfold PyStr.in_tuple. rewrite existsb_exists. split.
  - intros (x & Hx & E). apply String.eqb_eq in E. now subst.
  - intros H. exists s. split; [exact H | apply String.eqb_refl].
Qed.

(** What [parse_side] answers, in terms of the cleaned-up string. *)
Lemma parse_side_stripped (s : string) (sd : Side) :
  parse_side s = inr sd <->
  In (PyStr.strip (PyStr.lower s)) (Spec.spellings sd).
Proof.
  unfold parse_side. generalize (PyStr.strip (PyStr.lower s)) as t.
  intros t. split.
  - destruct (PyStr.in_tuple t ["n"; "north"]) eqn:En;
      [intros H; inversion H; now apply in_tuple_In|].
    destruct (PyStr.in_tuple t ["e"; "east"]) eqn:Ee;
      [intros H; inversion H; now apply in_tuple_In|].
    destruct (PyStr.in_tuple t ["s"; "south"]) eqn:Es;
      [intros H; inversion H; now apply in_tuple_In|].
    destruct (PyStr.in_tuple t ["w"; "west"]) eqn:Ew;
      [intros H; inversion H; now apply in_tuple_In|].
    discriminate.
  - destruct sd; simpl; intros [<- | [<- | []]]; reflexivity.
Qed.

Lemma parse_side_cases (s : string) :
  parse_side s = inl ValueError \/ exists sd, parse_side s = inr sd.
Proof.
  destruct (parse_side s) as [[] | sd]; [now left | right; now exists sd].
Qed.

(** The spellings are lower-case words without whitespace at either end. *)
Lemma spellings_tight (sd : Side) (w : string) :
  In w (Spec.spellings sd) ->
  Spec.lower_word w = true
  /\ exists c w', w = String c w' /\ PyStr.isspace c = false
                  /\ PyStr.rstrip w = w.
Proof.
  destruct sd; simpl; intros [<- | [<- | []]];
    (split; [reflexivity | eexists; eexists; repeat split]).
Qed.

(** [parse_side] reads [s] as [sd] exactly when [s] is a spelling of
    [sd], in any case, with whitespace around it. *)
Lemma parse_side_recognized (s : string) (sd : Side) :
  parse_side s = inr sd <-> Spec.recognized s sd.
Proof.
  rewrite parse_side_stripped. split.
  - intros Hin. exists (PyStr.strip (PyStr.lower s)). split; [exact Hin|].
    destruct (spellings_tight _ _ Hin) as (Hlw & c & w' & Hw & Hc & Hrs).
    destruct (proj1 (strip_padded (PyStr.lower s) _ w' c Hw Hc Hrs) eq_refl)
      as (l & r & Hs & Hl & Hr).
    destruct (lower_app_inv _ _ _ Hs) as (sl & srest & -> & Hsl & Hrest).
    destruct (lower_app_inv _ _ _ Hrest) as (sm & sr & -> & Hsm & Hsr).
    exists sl, sm, sr. split; [reflexivity|].
    split; [now rewrite <- all_space_lower, Hsl|].
    split; [now rewrite <- all_space_lower, Hsr|].
    now apply case_form_lower.
  - intros (w & Hin & l & m & r & -> & Hl & Hr & Hm).
    destruct (spellings_tight _ _ Hin) as (Hlw & c & w' & Hw & Hc & Hrs).
    apply (case_form_lower m w Hlw) in Hm.
    assert (E : PyStr.strip (PyStr.lower (l ++ m ++ r)) = w).
    { apply (strip_padded _ w w' c Hw Hc Hrs).
      exists l, r. rewrite !lower_app, Hm.
      now rewrite (lower_all_space l Hl), (lower_all_space r Hr). }
    now rewrite E.
Qed.

End Parser.

(** C9, as the spec has it, fails: [" north "] is none of the eight
    spellings in any case, and yet it is read as North. *)
Lemma padded_north_is_parsed :
  parse_side " north " = inr NORTH
  /\ forallb (fun w => negb (Spec.case_form " north " w)) Spec.all_spellings
     = true.
Proof. split; reflexivity. Qed.

(** C9, amended: [parse_side] lower-cases its argument and strips the
    whitespace at both ends.  It returns a side exactly for the eight
    spellings in any case, with any whitespace before and after, and raises
    [ValueError] on every other string. *)
Theorem parse_side_accepts (s : string) :
  (forall sd, parse_side s = inr sd <-> Spec.recognized s sd)
  /\ (parse_side s = inl ValueError <-> forall sd, ~ Spec.recognized s sd)
  /\ (forall sd w, In w (Spec.spellings sd) -> Spec.case_form s w = true ->
                   parse_side s = inr sd).
Proof.
  split; [intros sd; apply parse_side_recognized|].
  split.
  - split.
    + intros E sd H. apply parse_side_recognized in H. congruence.
    + intros H. destruct (parse_side_cases s) as [E | [sd E]]; [exact E|].
      apply parse_side_recognized in E. now apply H in E.
  - intros sd w Hin Hcf. apply parse_side_recognized.
    exists w. split; [exact Hin|].
    exists EmptyString, s, EmptyString. simpl.
    assert (E : (s ++ EmptyString)%string = s).
    { clear. induction s as [|c s IH]; simpl; [reflexivity | now rewrite IH]. }
    rewrite E. auto.
Qed.

(** * Further properties *)

(** ** Arcs on the circle *)

Section Arcs.

(** Two different numbers are ordered one way or the other; all the
    comparisons between them follow. *)
Lemma order_cases (x y : Q) :
  PyNum.eqb x y = false ->
  (x < y /\ PyNum.ltb x y = true /\ PyNum.ltb y x = false
   /\ PyNum.eqb y x = false)
  \/ (y < x /\ PyNum.ltb x y = false /\ PyNum.ltb y x = true
      /\ PyNum.eqb y x = false).
Proof.
  intros E.
  assert (Hne : ~ x == y) by (intros H; apply eqb_eq in H; congruence).
  assert (E' : PyNum.eqb y x = false).
  { destruct (PyNum.eqb y x) eqn:F; [|reflexivity].
    apply eqb_eq in F. exfalso. apply Hne. now symmetry. }
  destruct (Q_dec x y) as [[H | H] | H]; [left | right | contradiction].
  - repeat split; [exact H | now apply ltb_lt | apply ltb_nlt; lra | exact E'].
  - repeat split; [exact H | apply ltb_nlt; lra | now apply ltb_lt | exact E'].
Qed.

(** [point_in_arc] reduces its arguments itself. *)
Lemma point_in_arc_residues (x s e : Q) :
  point_in_arc (PyNum.mod_ x 400) (PyNum.mod_ s 400) (PyNum.mod_ e 400)
  = point_in_arc x s e.
Proof.
  unfold point_in_arc. cbv zeta.
  rewrite !(eqb_proper _ _ (mod_400_idem s) _ _ (mod_400_idem e)).
  rewrite !(ltb_proper _ _ (mod_400_idem s) _ _ (mod_400_idem e)).
  rewrite !(ltb_proper _ _ (mod_400_idem s) _ _ (mod_400_idem x)).
  now rewrite !(ltb_proper _ _ (mod_400_idem x) _ _ (mod_400_idem e)).
Qed.

(** So the reductions at the head of [_segments_intersect] can be left
    out. *)
Lemma _segments_intersect_unreduced (a1 a2 b1 b2 : Q) :
  _segments_intersect a1 a2 b1 b2
  = xorb (point_in_arc b1 a1 a2) (point_in_arc b2 a1 a2)
    && xorb (point_in_arc a1 b1 b2) (point_in_arc a2 b1 b2).
Proof.
  unfold _segments_intersect. cbv zeta. now rewrite !point_in_arc_residues.
Qed.

Lemma ltb_irrefl (x : Q) : PyNum.ltb x x = false.
Proof. apply ltb_nlt. lra. Qed.

Lemma eqb_refl (x : Q) : PyNum.eqb x x = true.
Proof. now apply eqb_eq. Qed.

End Arcs.

(** Orders two numbers known to differ and rewrites every comparison
    between them. *)
Ltac order_pair x y H :=
  let Hlt := fresh "Hlt" in
  let E1 := fresh "E" in let E2 := fresh "E" in let E3 := fresh "E" in
  destruct (order_cases x y H) as [(Hlt & E1 & E2 & E3) | (Hlt & E1 & E2 & E3)];
  rewrite ?H, ?E1, ?E2, ?E3.

(** What [distinct_mod_400] says of four numbers. *)
Lemma distinct_four (a1 a2 b1 b2 : Q) :
  distinct_mod_400 [a1; a2; b1; b2] = true <->
  PyNum.eqb (PyNum.mod_ a1 400) (PyNum.mod_ a2 400) = false
  /\ PyNum.eqb (PyNum.mod_ a1 400) (PyNum.mod_ b1 400) = false
  /\ PyNum.eqb (PyNum.mod_ a1 400) (PyNum.mod_ b2 400) = false
  /\ PyNum.eqb (PyNum.mod_ a2 400) (PyNum.mod_ b1 400) = false
  /\ PyNum.eqb (PyNum.mod_ a2 400) (PyNum.mod_ b2 400) = false
  /\ PyNum.eqb (PyNum.mod_ b1 400) (PyNum.mod_ b2 400) = false.
Proof.
  simpl. rewrite !andb_true_r, !andb_true_iff, !negb_true_iff. tauto.
Qed.

Lemma eqb_false_sym (x y : Q) : PyNum.eqb x y = false -> PyNum.eqb y x = false.
Proof. unfold PyNum.eqb. now rewrite Qeq_bool_comm. Qed.

Lemma distinct_flip_first (a1 a2 b1 b2 : Q) :
  distinct_mod_400 [a1; a2; b1; b2] = true ->
  distinct_mod_400 [a2; a1; b1; b2] = true.
Proof.
  rewrite !distinct_four. intros (H1 & H2 & H3 & H4 & H5 & H6).
  repeat split; auto using eqb_false_sym.
Qed.

Lemma distinct_swap_arcs (a1 a2 b1 b2 : Q) :
  distinct_mod_400 [a1; a2; b1; b2] = true ->
  distinct_mod_400 [b1; b2; a1; a2] = true.
Proof.
  rewrite !distinct_four. intros (H1 & H2 & H3 & H4 & H5 & H6).
  repeat split; auto using eqb_false_sym.
Qed.

(** Chords alternate: one end of the second arc is inside the first
    exactly when one end of the first is inside the second. *)
Lemma alternation (a1 a2 b1 b2 : Q) :
  distinct_mod_400 [a1; a2; b1; b2] = true ->
  xorb (point_in_arc b1 a1 a2) (point_in_arc b2 a1 a2)
  = xorb (point_in_arc a1 b1 b2) (point_in_arc a2 b1 b2).
Proof.
  rewrite distinct_four.
  intros (H12 & Ha1b1 & Ha1b2 & Ha2b1 & Ha2b2 & Hb).
  unfold point_in_arc. cbv zeta.
  set (A1 := PyNum.mod_ a1 400) in *. set (A2 := PyNum.mod_ a2 400) in *.
  set (B1 := PyNum.mod_ b1 400) in *. set (B2 := PyNum.mod_ b2 400) in *.
  order_pair A1 A2 H12; order_pair B1 B2 Hb;
    order_pair A1 B1 Ha1b1; order_pair A1 B2 Ha1b2;
    order_pair A2 B1 Ha2b1; order_pair A2 B2 Ha2b2;
    first [reflexivity | exfalso; lra].
Qed.

Lemma intersect_first (a1 a2 b1 b2 : Q) :
  distinct_mod_400 [a1; a2; b1; b2] = true ->
  _segments_intersect a1 a2 b1 b2
  = xorb (point_in_arc b1 a1 a2) (point_in_arc b2 a1 a2).
Proof.
  intros Hd.
  rewrite _segments_intersect_unreduced, <- (alternation _ _ _ _ Hd).
  apply andb_diag.
Qed.

Lemma intersect_second (a1 a2 b1 b2 : Q) :
  distinct_mod_400 [a1; a2; b1; b2] = true ->
  _segments_intersect a1 a2 b1 b2
  = xorb (point_in_arc a1 b1 b2) (point_in_arc a2 b1 b2).
Proof.
  intros Hd. rewrite (intersect_first _ _ _ _ Hd). now apply alternation.
Qed.

Lemma intersect_flip_first (a1 a2 b1 b2 : Q) :
  distinct_mod_400 [a1; a2; b1; b2] = true ->
  _segments_intersect a2 a1 b1 b2 = _segments_intersect a1 a2 b1 b2.
Proof.
  intros Hd.
  rewrite (intersect_second _ _ _ _ Hd).
  rewrite (intersect_second _ _ _ _ (distinct_flip_first _ _ _ _ Hd)).
  apply xorb_comm.
Qed.

(** X1: [point_in_arc] is strict: neither end of an arc lies inside it. *)
Theorem point_in_arc_excludes_ends (s e : Q) :
  point_in_arc s s e = false /\ point_in_arc e s e = false.
Proof.
  unfold point_in_arc. cbv zeta.
  set (s' := PyNum.mod_ s 400). set (e' := PyNum.mod_ e 400).
  destruct (PyNum.eqb s' e') eqn:E; [split; reflexivity|].
  order_pair s' e' E; rewrite !ltb_irrefl; split; reflexivity.
Qed.

(** X2: for a point that is at neither end of a proper arc, lying inside
    the arc from [s] to [e] is the opposite of lying inside the arc from
    [e] to [s]: the two arcs split the rest of the circle. *)
Theorem point_in_arc_complement (x s e : Q) :
  distinct_mod_400 [x; s; e] = true ->
  point_in_arc x e s = negb (point_in_arc x s e).
Proof.
  simpl. rewrite !andb_true_r, !andb_true_iff, !negb_true_iff.
  intros [[Hxs Hxe] Hse].
  unfold point_in_arc. cbv zeta.
  set (x' := PyNum.mod_ x 400) in *. set (s' := PyNum.mod_ s 400) in *.
  set (e' := PyNum.mod_ e 400) in *.
  order_pair s' e' Hse; order_pair x' s' Hxs; order_pair x' e' Hxe;
    first [reflexivity | exfalso; lra].
Qed.

Lemma point_in_arc_complement_witness :
  distinct_mod_400 [150; 10; 210] = true
  /\ point_in_arc 150 210 10 = negb (point_in_arc 150 10 210).
Proof.
  split; [reflexivity|].
  apply (point_in_arc_complement 150 10 210). reflexivity.
Defined.

(** X3: for four numbers of [[0, 400]] with different residues, the two
    tests of [_segments_intersect] agree (chords alternate on a circle), so
    either one decides the crossing. *)
Theorem segments_alternate (a1 a2 b1 b2 : Q) :
  within_boundary [a1; a2; b1; b2] = true ->
  distinct_mod_400 [a1; a2; b1; b2] = true ->
  xorb (point_in_arc b1 a1 a2) (point_in_arc b2 a1 a2)
  = xorb (point_in_arc a1 b1 b2) (point_in_arc a2 b1 b2)
  /\ _segments_intersect a1 a2 b1 b2
     = xorb (point_in_arc b1 a1 a2) (point_in_arc b2 a1 a2).
Proof.
  intros _ Hd. split; [now apply alternation | now apply intersect_first].
Qed.

Lemma segments_alternate_witness :
  within_boundary [10; 210; 150; 350] = true
  /\ distinct_mod_400 [10; 210; 150; 350] = true
  /\ _segments_intersect 10 210 150 350
     = xorb (point_in_arc 150 10 210) (point_in_arc 350 10 210).
Proof.
  split; [reflexivity|]. split; [reflexivity|].
  exact (proj2 (segments_alternate 10 210 150 350 eq_refl eq_refl)).
Defined.

Lemma intersect_flip_second (a1 a2 b1 b2 : Q) :
  distinct_mod_400 [a1; a2; b1; b2] = true ->
  _segments_intersect a1 a2 b2 b1 = _segments_intersect a1 a2 b1 b2.
Proof.
  intros Hd.
  rewrite (_segments_intersect_sym a1 a2 b2 b1).
  rewrite (_segments_intersect_sym a1 a2 b1 b2).
  apply intersect_flip_first. now apply distinct_swap_arcs.
Qed.

(** The endpoint test of [edges_cross] looks at the same four pairs when
    an edge is reversed. *)
Lemma share_endpoint_reversed (e1 e2 : Edge) :
  is_equivalent (start (reversed e1)) (start e2)
  || is_equivalent (start (reversed e1)) (end_ e2)
  || is_equivalent (end_ (reversed e1)) (start e2)
  || is_equivalent (end_ (reversed e1)) (end_ e2)
  = is_equivalent (start e1) (start e2) || is_equivalent (start e1) (end_ e2)
    || is_equivalent (end_ e1) (start e2) || is_equivalent (end_ e1) (end_ e2).
Proof.
  simpl.
  destruct (is_equivalent (start e1) (start e2)),
           (is_equivalent (start e1) (end_ e2)),
           (is_equivalent (end_ e1) (start e2)),
           (is_equivalent (end_ e1) (end_ e2)); reflexivity.
Qed.

Lemma edges_cross_reversed_first (e1 e2 : Edge) :
  distinct_mod_400 (endpoint_coordinates e1 e2) = true ->
  edges_cross (reversed e1) e2 = edges_cross e1 e2.
Proof.
  intros Hd. unfold edges_cross. rewrite share_endpoint_reversed.
  destruct (_ || _); [reflexivity|].
  simpl. now apply intersect_flip_first.
Qed.

(** X4: when the four endpoints of two edges sit at different places of
    the boundary, [edges_cross] does not depend on the direction of either
    edge. *)
Theorem edges_cross_undirected (e1 e2 : Edge) :
  distinct_mod_400 (endpoint_coordinates e1 e2) = true ->
  edges_cross (reversed e1) e2 = edges_cross e1 e2
  /\ edges_cross e1 (reversed e2) = edges_cross e1 e2
  /\ edges_cross (reversed e1) (reversed e2) = edges_cross e1 e2.
Proof.
  intros Hd.
  assert (H1 : edges_cross (reversed e1) e2 = edges_cross e1 e2)
    by now apply edges_cross_reversed_first.
  assert (H2 : edges_cross e1 (reversed e2) = edges_cross e1 e2).
  { rewrite (edges_cross_sym e1 (reversed e2)), (edges_cross_sym e1 e2).
    apply edges_cross_reversed_first.
    unfold endpoint_coordinates in *. now apply distinct_swap_arcs. }
  split; [exact H1|]. split; [exact H2|].
  rewrite <- H2. apply edges_cross_reversed_first.
  unfold endpoint_coordinates in *. simpl.
  apply distinct_swap_arcs, distinct_flip_first, distinct_swap_arcs.
  exact Hd.
Qed.

Lemma edges_cross_undirected_witness :
  distinct_mod_400
    (endpoint_coordinates
       (Build_Edge (Build_Point NORTH 10) (Build_Point SOUTH 10))
       (Build_Edge (Build_Point EAST 50) (Build_Point WEST 50))) = true
  /\ edges_cross
       (reversed (Build_Edge (Build_Point NORTH 10) (Build_Point SOUTH 10)))
       (Build_Edge (Build_Point EAST 50) (Build_Point WEST 50))
     = edges_cross (Build_Edge (Build_Point NORTH 10) (Build_Point SOUTH 10))
                   (Build_Edge (Build_Point EAST 50) (Build_Point WEST 50)).
Proof.
  split; [reflexivity|].
  exact (proj1 (edges_cross_undirected
                  (Build_Edge (Build_Point NORTH 10) (Build_Point SOUTH 10))
                  (Build_Edge (Build_Point EAST 50) (Build_Point WEST 50))
                  eq_refl)).
Defined.

(** At a corner the hypothesis is needed: North at 0 and West at 0 are one
    place of the boundary but not one vertex, and the answer changes with
    the direction of the first edge. *)
Example edges_cross_directed_at_corner :
  edges_cross (Build_Edge (Build_Point NORTH 0) (Build_Point SOUTH 50))
              (Build_Edge (Build_Point WEST 0) (Build_Point WEST 100)) = false
  /\ edges_cross (Build_Edge (Build_Point SOUTH 50) (Build_Point NORTH 0))
                 (Build_Edge (Build_Point WEST 0) (Build_Point WEST 100)) = true.
Proof. split; reflexivity. Qed.

(** ** Places on the boundary *)

Section Places.

(** The residue of the coordinate of a well-formed point: the coordinate
    itself, but 0 for the one point at 400. *)
Lemma coordinate_residue (p : Point) :
  Point_wf p ->
  (_get_boundary_coordinate p < 400
   /\ PyNum.mod_ (_get_boundary_coordinate p) 400 == _get_boundary_coordinate p)
  \/ (_get_boundary_coordinate p == 400
      /\ PyNum.mod_ (_get_boundary_coordinate p) 400 == 0).
Proof.
  intros Hwf. destruct (coordinate_bounds p Hwf) as [H0 H4].
  destruct (Qlt_le_dec (_get_boundary_coordinate p) 400) as [Hlt | Hge].
  - left. split; [exact Hlt | now apply mod_400_small].
  - right. assert (E : _get_boundary_coordinate p == 400) by lra.
    split; [exact E|]. rewrite E. reflexivity.
Qed.

End Places.

(** X6: each side is drawn on its own quarter of the circle, North on
    [[0, 100]], East on [[100, 200]], South on [[200, 300]] and West on
    [[300, 400]]; along North and South the coordinate never falls when the
    position grows, along East and West it never grows, so two points of a
    side whose coordinates differ are ordered as their positions say. *)
Theorem coordinate_quarters (p q : Point) :
  Point_wf p -> Point_wf q -> side p = side q ->
  quarter_start (side p) <= _get_boundary_coordinate p
                         <= quarter_start (side p) + 100
  /\ (position p <= position q ->
      if runs_clockwise (side p)
      then _get_boundary_coordinate p <= _get_boundary_coordinate q
      else _get_boundary_coordinate q <= _get_boundary_coordinate p)
  /\ (_get_boundary_coordinate p < _get_boundary_coordinate q ->
      if runs_clockwise (side p) then position p < position q
      else position q < position p).
Proof.
  unfold Point_wf, _get_boundary_coordinate.
  destruct p as [sp pp], q as [sq pq]. cbn [side position].
  intros [H0 H1] _ <-.
  destruct sp; cbn [runs_clockwise quarter_start];
    repeat split; intros; lra.
Qed.

Lemma coordinate_quarters_witness :
  Point_wf (Build_Point EAST 30) /\ Point_wf (Build_Point EAST 20)
  /\ (_get_boundary_coordinate (Build_Point EAST 30)
      < _get_boundary_coordinate (Build_Point EAST 20) -> 20 < 30).
Proof.
  assert (H : Point_wf (Build_Point EAST 30)) by (split; discriminate).
  assert (H' : Point_wf (Build_Point EAST 20)) by (split; discriminate).
  split; [exact H|]. split; [exact H'|].
  exact (proj2 (proj2 (coordinate_quarters (Build_Point EAST 30)
                         (Build_Point EAST 20) H H' eq_refl))).
Defined.

(** X7: two well-formed points on different sides have the same
    coordinate modulo 400 only at a corner: the sides are neighbours and
    both points sit at the coordinate of the corner they share (100, 200,
    300, or 0 for West and North).  Points on opposite sides never share a
    coordinate. *)
Theorem coordinate_same_place (p q : Point) :
  Point_wf p -> Point_wf q -> side p <> side q ->
  (PyNum.mod_ (_get_boundary_coordinate p) 400
   == PyNum.mod_ (_get_boundary_coordinate q) 400
   <-> exists c, corner_between (side p) (side q) = Some c
                 /\ PyNum.mod_ (_get_boundary_coordinate p) 400 == c
                 /\ PyNum.mod_ (_get_boundary_coordinate q) 400 == c).
Proof.
  intros Hp Hq Hne. split.
  - intros He.
    destruct (coordinate_residue p Hp) as [[Lp Mp] | [Lp Mp]];
      destruct (coordinate_residue q Hq) as [[Lq Mq] | [Lq Mq]];
      rewrite Mp, Mq in He;
      unfold Point_wf, _get_boundary_coordinate in *;
      destruct p as [sp pp], q as [sq pq]; cbn [side position] in *;
      destruct Hp as [Hp0 Hp1], Hq as [Hq0 Hq1];
      destruct sp, sq; cbn [corner_between];
      try (now elim Hne);
      try (exfalso; lra);
      (eexists; split; [reflexivity | split; [rewrite Mp | rewrite Mq]; lra]).
  - intros (c & _ & Hcp & Hcq). now rewrite Hcp, Hcq.
Qed.

Lemma coordinate_same_place_witness :
  Point_wf (Build_Point WEST 0) /\ Point_wf (Build_Point NORTH 0)
  /\ PyNum.mod_ (_get_boundary_coordinate (Build_Point WEST 0)) 400
     == PyNum.mod_ (_get_boundary_coordinate (Build_Point NORTH 0)) 400.
Proof.
  assert (Hw : Point_wf (Build_Point WEST 0)) by (split; discriminate).
  assert (Hn : Point_wf (Build_Point NORTH 0)) by (split; discriminate).
  split; [exact Hw|]. split; [exact Hn|].
  apply (coordinate_same_place (Build_Point WEST 0) (Build_Point NORTH 0) Hw Hn).
  - discriminate.
  - exists 0. repeat split.
Defined.

(** ** The quotient of the boundary *)

(** X8: [is_equivalent] is an equivalence relation on points. *)
Theorem is_equivalent_equivalence :
  (forall a, is_equivalent a a = true)
  /\ (forall a b, is_equivalent a b = is_equivalent b a)
  /\ (forall a b c, is_equivalent a b = true -> is_equivalent b c = true ->
                    is_equivalent a c = true).
Proof.
  split; [apply is_equivalent_refl|]. split; [apply is_equivalent_sym|].
  intros a b c. rewrite !is_equivalent_iff.
  intros [Hs1 Hp1] [Hs2 Hp2]. split; [congruence|].
  now rewrite Hp1.
Qed.

(** X9: [canonicalize] picks a representative on East or West: it keeps
    the position, returns a point equivalent to its argument, changes
    nothing when applied again, and two points are equivalent exactly when
    they lie on the same glued pair of sides at equal positions. *)
Theorem canonicalize_representative (p q : Point) :
  canonicalize (canonicalize p) = canonicalize p
  /\ (side (canonicalize p) = EAST \/ side (canonicalize p) = WEST)
  /\ position (canonicalize p) = position p
  /\ is_equivalent p (canonicalize p) = true
  /\ (is_equivalent p q = true <->
      on_north_east (side p) = on_north_east (side q)
      /\ position p == position q).
Proof.
  split; [now destruct p as [[] pp]|].
  split; [destruct p as [[] pp]; simpl; auto|].
  split; [now destruct p as [[] pp]|].
  split.
  - apply is_equivalent_iff. destruct p as [[] pp]; simpl; split; reflexivity.
  - rewrite is_equivalent_iff.
    destruct p as [[] pp], q as [[] pq]; simpl; split; intros [H1 H2];
      split; solve [reflexivity | assumption | discriminate H1].
Qed.

(** ** Paths, again *)

Section PathStructure.

Local Open Scope nat_scope.

(** The first two edges of a path and the rest. *)
Lemma is_valid_path_cons (a b : Edge) (l : list Edge) :
  is_valid_path (a :: b :: l) = Some true <->
  connects_to a b = true /\ is_valid_path (b :: l) = Some true.
Proof.
  destruct (is_valid_path_spec (a :: b :: l)) as (v & Hv & Hiff).
  destruct (is_valid_path_spec (b :: l)) as (w & Hw & Hiff').
  rewrite Hv, Hw.
  assert (Hvt : Some v = Some true <-> v = true) by (split; congruence).
  assert (Hwt : Some w = Some true <-> w = true) by (split; congruence).
  rewrite Hvt, Hwt, Hiff, Hiff'. split.
  - intros H. split; [apply (H 0); reflexivity|].
    intros i ei ej Hi Hj. apply (H (S i)); assumption.
  - intros [Hab H] [|i] ei ej Hi Hj.
    + simpl in Hi, Hj. congruence.
    + apply (H i); assumption.
Qed.

Lemma is_valid_path_single (a : Edge) : is_valid_path [a] = Some true.
Proof. reflexivity. Qed.

(** Two paths put end to end. *)
Lemma is_valid_path_join (l1 l2 : list Edge) (a b : Edge) :
  is_valid_path ((l1 ++ [a]) ++ b :: l2) = Some true <->
  is_valid_path (l1 ++ [a]) = Some true
  /\ connects_to a b = true
  /\ is_valid_path (b :: l2) = Some true.
Proof.
  induction l1 as [|x l1 IH].
  - simpl app. rewrite is_valid_path_cons, is_valid_path_single. tauto.
  - destruct l1 as [|y l1].
    + simpl app in *. rewrite !is_valid_path_cons, is_valid_path_single.
      rewrite is_valid_path_single in IH. tauto.
    + simpl app in *. rewrite !is_valid_path_cons, IH. tauto.
Qed.

(** One more edge at the end of a path. *)
Lemma is_valid_path_snoc (l : list Edge) (a b : Edge) :
  is_valid_path ((l ++ [a]) ++ [b]) = Some true <->
  is_valid_path (l ++ [a]) = Some true /\ connects_to a b = true.
Proof.
  rewrite is_valid_path_join, is_valid_path_single. tauto.
Qed.

Lemma connects_to_reversed (a b : Edge) :
  connects_to (reversed b) (reversed a) = connects_to a b.
Proof. unfold connects_to, reversed. simpl. apply is_equivalent_sym. Qed.

Lemma is_valid_path_backwards (l : list Edge) :
  is_valid_path (rev (map reversed l)) = Some true <->
  is_valid_path l = Some true.
Proof.
  induction l as [|a l IH]; [reflexivity|].
  destruct l as [|b l]; [reflexivity|].
  rewrite is_valid_path_cons, <- IH.
  change (rev (map reversed (a :: b :: l)))
    with ((rev (map reversed l) ++ [reversed b]) ++ [reversed a]).
  change (rev (map reversed (b :: l)))
    with (rev (map reversed l) ++ [reversed b]).
  rewrite is_valid_path_snoc, connects_to_reversed. tauto.
Qed.

Lemma is_valid_path_total (l : list Edge) :
  is_valid_path l = Some true \/ is_valid_path l = Some false.
Proof.
  destruct (is_valid_path_spec l) as ([] & Hb & _); auto.
Qed.

End PathStructure.

(** X10: two valid paths put end to end give a valid path exactly when the
    last edge of the first connects to the first edge of the second; so
    every piece of a valid path is a valid path. *)
Theorem is_valid_path_concatenation (l1 l2 : list Edge) (a b : Edge) :
  is_valid_path ((l1 ++ [a]) ++ b :: l2) = Some true <->
  is_valid_path (l1 ++ [a]) = Some true
  /\ connects_to a b = true
  /\ is_valid_path (b :: l2) = Some true.
Proof. apply is_valid_path_join. Qed.

(** X11: a path walked backwards, every edge reversed and the order
    reversed, is valid exactly when the path is. *)
Theorem is_valid_path_reversal (l : list Edge) :
  is_valid_path (rev (map reversed l)) = is_valid_path l.
Proof.
  pose proof (is_valid_path_backwards l) as H.
  destruct (is_valid_path_total l) as [E | E],
           (is_valid_path_total (rev (map reversed l))) as [E' | E'];
    rewrite E, E' in *; try reflexivity.
  - apply H. reflexivity.
  - symmetry. apply H. reflexivity.
Qed.

(** ** Crossing within a list *)

Section CrossingLists.

Local Open Scope nat_scope.

Lemma edges_cross_self (e : Edge) : edges_cross e e = false.
Proof.
  apply edges_cross_shared. now rewrite is_equivalent_refl.
Qed.

Lemma edges_cross_connected (a b : Edge) :
  connects_to a b = true -> edges_cross a b = false.
Proof.
  unfold connects_to. intros H. apply edges_cross_shared.
  rewrite H. now rewrite !orb_true_r.
Qed.

(** [is_noncrossing] in terms of membership: indices do not matter. *)
Lemma is_noncrossing_members (l : list Edge) :
  is_noncrossing l = Some true <->
  forall a b, In a l -> In b l -> edges_cross a b = false.
Proof.
  destruct (is_noncrossing_spec l) as (v & Hv & Hiff).
  rewrite Hv.
  assert (Hvt : Some v = Some true <-> v = true) by (split; congruence).
  rewrite Hvt, Hiff. split.
  - intros H a b Ha Hb.
    apply In_nth_error in Ha as [i Hi]. apply In_nth_error in Hb as [j Hj].
    destruct (Nat.eq_dec i j) as [-> | Hne].
    + assert (a = b) by congruence. subst b. apply edges_cross_self.
    + now apply (H i j).
  - intros H i j ei ej _ Hi Hj.
    apply H; eapply nth_error_In; eassumption.
Qed.

Lemma is_noncrossing_total (l : list Edge) :
  is_noncrossing l = Some true \/ is_noncrossing l = Some false.
Proof.
  destruct (is_noncrossing_spec l) as ([] & Hb & _); auto.
Qed.

End CrossingLists.

(** X12: an edge never crosses itself, and two edges one of which
    continues the other never cross, in either order. *)
Theorem edges_cross_never_when_joined :
  (forall e, edges_cross e e = false)
  /\ (forall a b, connects_to a b = true ->
                  edges_cross a b = false /\ edges_cross b a = false).
Proof.
  split; [apply edges_cross_self|].
  intros a b H. split; [|rewrite edges_cross_sym]; now apply edges_cross_connected.
Qed.

(** X13: on a valid path, [is_noncrossing_path] only has to look at pairs
    of edges that are not neighbours. *)
Theorem is_noncrossing_path_non_neighbours (edges : list Edge) :
  is_valid_path edges = Some true ->
  (is_noncrossing_path edges = Some true <->
   forall i j ei ej, (i + 1 < j)%nat ->
                     nth_error edges i = Some ei ->
                     nth_error edges j = Some ej ->
                     edges_cross ei ej = false).
Proof.
  intros Hv. unfold is_noncrossing_path. rewrite Hv.
  destruct (is_noncrossing_spec edges) as (b & Hb & Hiff).
  destruct (is_valid_path_spec edges) as (v & Hv' & Hvalid).
  assert (v = true) by congruence. subst v.
  destruct Hvalid as [Hconn _]. specialize (Hconn eq_refl).
  rewrite Hb.
  assert (Hbt : Some b = Some true <-> b = true) by (split; congruence).
  rewrite Hbt, Hiff. split.
  - intros H i j ei ej Hlt. apply H. lia.
  - intros H i j ei ej Hne Hi Hj.
    assert (Hadj : forall k ek ek', nth_error edges k = Some ek ->
                     nth_error edges (k + 1) = Some ek' ->
                     edges_cross ek ek' = false).
    { intros k ek ek' Hk Hk'. apply edges_cross_connected. now apply (Hconn k). }
    destruct (Nat.lt_total i j) as [Hlt | [Heq | Hgt]]; [|contradiction|].
    + destruct (Nat.eq_dec j (i + 1)) as [-> | Hfar].
      * now apply (Hadj i).
      * apply (H i j); [lia | assumption | assumption].
    + rewrite edges_cross_sym.
      destruct (Nat.eq_dec i (j + 1)) as [-> | Hfar].
      * now apply (Hadj j).
      * apply (H j i); [lia | assumption | assumption].
Qed.

Lemma is_noncrossing_path_non_neighbours_witness :
  is_valid_path zigzag = Some true
  /\ (is_noncrossing_path zigzag = Some true <->
      forall i j ei ej, (i + 1 < j)%nat ->
                        nth_error zigzag i = Some ei ->
                        nth_error zigzag j = Some ej ->
                        edges_cross ei ej = false).
Proof.
  split; [reflexivity|].
  exact (is_noncrossing_path_non_neighbours zigzag eq_refl).
Defined.

(** X14: for at most two edges there is nothing left to cross:
    [is_noncrossing_path] and [is_valid_path] agree. *)
Theorem is_noncrossing_path_short (edges : list Edge) :
  (length edges <= 2)%nat ->
  is_noncrossing_path edges = is_valid_path edges.
Proof.
  intros Hlen.
  destruct edges as [|a [|b [|c l]]]; [reflexivity | reflexivity | | simpl in Hlen; lia].
  unfold is_noncrossing_path.
  destruct (is_valid_path_total [a; b]) as [E | E]; rewrite E; [|reflexivity].
  apply is_valid_path_cons in E as [Hab _].
  apply is_noncrossing_members. intros x y [<- | [<- | []]] [<- | [<- | []]].
  - apply edges_cross_self.
  - now apply edges_cross_connected.
  - rewrite edges_cross_sym. now apply edges_cross_connected.
  - apply edges_cross_self.
Qed.

Lemma is_noncrossing_path_short_witness :
  (length edges1 <= 2)%nat
  /\ is_noncrossing_path edges1 = is_valid_path edges1.
Proof.
  assert (H : (length edges1 <= 2)%nat) by (simpl; lia).
  split; [exact H|].
  exact (is_noncrossing_path_short edges1 H).
Defined.

(** X15: [is_noncrossing] depends only on which edges are in the list,
    not on their order or on repetitions: it is true exactly when no two
    members cross. *)
Theorem is_noncrossing_membership (l : list Edge) :
  is_noncrossing l = Some true <->
  forall a b, In a l -> In b l -> edges_cross a b = false.
Proof. apply is_noncrossing_members. Qed.

(** X16: every selection from a noncrossing list is noncrossing, and two
    lists with the same members get the same answer. *)
Theorem is_noncrossing_selection (l l' : list Edge) :
  incl l' l ->
  (is_noncrossing l = Some true -> is_noncrossing l' = Some true)
  /\ (incl l l' -> is_noncrossing l' = is_noncrossing l).
Proof.
  intros Hincl.
  assert (Hmono : forall u v, incl u v -> is_noncrossing v = Some true ->
                              is_noncrossing u = Some true).
  { intros u v Huv. rewrite !is_noncrossing_members.
    intros H a b Ha Hb. apply H; apply Huv; assumption. }
  split; [now apply Hmono|].
  intros Hincl'.
  destruct (is_noncrossing_total l) as [E | E],
           (is_noncrossing_total l') as [E' | E']; rewrite E, E'; try reflexivity.
  - rewrite (Hmono l' l Hincl E) in E'. discriminate.
  - rewrite (Hmono l l' Hincl' E') in E. discriminate.
Qed.

Lemma is_noncrossing_selection_witness :
  incl (tl edges4) edges4 /\ is_noncrossing (tl edges4) = Some true.
Proof.
  assert (H : incl (tl edges4) edges4) by (intros x [<- | []]; simpl; auto).
  split; [exact H|].
  exact (proj1 (is_noncrossing_selection edges4 (tl edges4) H) eq_refl).
Defined.

(** ** Building points and edges from strings *)

Section Builders.

Local Open Scope string_scope.

Lemma mk_Point_inr (s : Side) (pos : Q) (p : Point) :
  mk_Point s pos = inr p <-> p = Build_Point s pos /\ (0 <= pos <= 100)%Q.
Proof.
  unfold mk_Point.
  destruct (PyNum.leb 0 pos) eqn:H0; destruct (PyNum.leb pos 100) eqn:H1;
    simpl; split.
  all: try (intros [_ [Ha Hb]]; apply leb_le in Ha, Hb; congruence).
  all: try discriminate.
  - intros H. inversion H. split; [reflexivity|].
    split; now apply leb_le.
  - intros [-> _]. reflexivity.
Qed.

Lemma make_point_inr (sd_ : string) (pos : Q) (p : Point) :
  make_point sd_ pos = inr p <->
  parse_side sd_ = inr (side p) /\ position p = pos /\ Point_wf p.
Proof.
  unfold make_point, Point_wf. destruct (parse_side sd_) as [[] | sd].
  - split; [discriminate | intros [H _]; discriminate H].
  - rewrite mk_Point_inr. split.
    + intros [-> H]. simpl. auto.
    + intros (Hs & Hp & Hwf). inversion Hs. subst.
      destruct p as [s pos]. simpl in *. auto.
Qed.

Lemma lower_char_idem (c : ascii) :
  PyStr.lower_char (PyStr.lower_char c) = PyStr.lower_char c.
Proof. destruct c as [[] [] [] [] [] [] [] []]; reflexivity. Qed.

Lemma lower_idem (s : string) : PyStr.lower (PyStr.lower s) = PyStr.lower s.
Proof.
  induction s as [|c s IH]; simpl; [reflexivity|].
  now rewrite lower_char_idem, IH.
Qed.

Lemma lstrip_all_space (r : string) :
  Spec.all_space r = true -> PyStr.lstrip r = EmptyString.
Proof.
  induction r as [|c r IH]; simpl; [reflexivity|].
  intros H. apply andb_true_iff in H as [Hc Hr]. rewrite Hc. auto.
Qed.

Lemma strip_app_space_r (x r : string) :
  Spec.all_space r = true -> PyStr.strip (x ++ r) = PyStr.strip x.
Proof.
  intros Hr. unfold PyStr.strip. induction x as [|c x IH]; simpl.
  - now rewrite (lstrip_all_space r Hr).
  - destruct (PyStr.isspace c); [exact IH|].
    change (String c (x ++ r)) with (String c x ++ r).
    now apply rstrip_app_space.
Qed.

Lemma strip_padding (l x r : string) :
  Spec.all_space l = true -> Spec.all_space r = true ->
  PyStr.strip (l ++ x ++ r) = PyStr.strip x.
Proof.
  intros Hl Hr. unfold PyStr.strip at 1.
  rewrite (lstrip_app_space l (x ++ r) Hl).
  now apply strip_app_space_r.
Qed.

End Builders.

(** X17: [make_edge] returns an edge exactly when both side names are
    recognized and both positions are within [[0, 100]]; the edge then has
    the parsed sides and the given positions, and is well formed.  In every
    other case it raises [ValueError]. *)
Theorem make_edge_result (ss es : string) (sp ep : Q) :
  (forall e, make_edge ss sp es ep = inr e <->
             parse_side ss = inr (side (start e))
             /\ parse_side es = inr (side (end_ e))
             /\ position (start e) = sp /\ position (end_ e) = ep
             /\ Edge_wf e)
  /\ (make_edge ss sp es ep = inl ValueError <->
      parse_side ss = inl ValueError \/ parse_side es = inl ValueError
      \/ ~ (0 <= sp <= 100) \/ ~ (0 <= ep <= 100)).
Proof.
  assert (Hsucc : forall e, make_edge ss sp es ep = inr e <->
             parse_side ss = inr (side (start e))
             /\ parse_side es = inr (side (end_ e))
             /\ position (start e) = sp /\ position (end_ e) = ep
             /\ Edge_wf e).
  { intros e. unfold make_edge, Edge_wf.
    destruct (make_point ss sp) as [[] | p1] eqn:E1.
    - split; [discriminate|]. intros (H1 & _ & H3 & _ & [Hw _]).
      assert (X : make_point ss sp = inr (start e))
        by (apply make_point_inr; auto).
      congruence.
    - destruct (make_point es ep) as [[] | p2] eqn:E2.
      + split; [discriminate|]. intros (_ & H2 & _ & H4 & [_ Hw]).
        assert (X : make_point es ep = inr (end_ e))
          by (apply make_point_inr; auto).
        congruence.
      + apply make_point_inr in E1 as (A1 & A2 & A3).
        apply make_point_inr in E2 as (B1 & B2 & B3). split.
        * intros H. inversion H. simpl. tauto.
        * intros (H1 & H2 & H3 & H4 & [Hw1 Hw2]).
          assert (X1 : make_point ss sp = inr (start e))
            by (apply make_point_inr; auto).
          assert (X2 : make_point es ep = inr (end_ e))
            by (apply make_point_inr; auto).
          assert (Y1 : make_point ss sp = inr p1)
            by (apply make_point_inr; auto).
          assert (Y2 : make_point es ep = inr p2)
            by (apply make_point_inr; auto).
          destruct e as [s0 e0]. simpl in *. congruence. }
  split; [exact Hsucc|].
  split.
  - intros Hfail.
    destruct (parse_side ss) as [[] | s1] eqn:P1; [now left|].
    destruct (parse_side es) as [[] | s2] eqn:P2; [right; now left|].
    right. right.
    destruct (Qlt_le_dec sp 0); [left; lra|].
    destruct (Qlt_le_dec 100 sp); [left; lra|].
    destruct (Qlt_le_dec ep 0); [right; lra|].
    destruct (Qlt_le_dec 100 ep); [right; lra|].
    exfalso.
    assert (X : make_edge ss sp es ep
                = inr (Build_Edge (Build_Point s1 sp) (Build_Point s2 ep))).
    { apply Hsucc. unfold Edge_wf, Point_wf. simpl.
      repeat split; solve [assumption | reflexivity]. }
    congruence.
  - intros Hbad.
    destruct (make_edge ss sp es ep) as [[] | e] eqn:E; [reflexivity|].
    exfalso.
    destruct (proj1 (Hsucc e) eq_refl) as (H1 & H2 & H3 & H4 & [[Ha Hb] [Hc Hd]]).
    subst sp ep.
    destruct Hbad as [Hb1 | [Hb2 | [Hb3 | Hb4]]];
      [congruence | congruence | apply Hb3; split; assumption
       | apply Hb4; split; assumption].
Qed.

(** X18: a well-formed edge is rebuilt by [make_edge] from the names of its
    sides and its positions. *)
Theorem make_edge_rebuilds (e : Edge) :
  Edge_wf e ->
  make_edge (Side_value (side (start e))) (position (start e))
            (Side_value (side (end_ e))) (position (end_ e)) = inr e.
Proof.
  intros [Hs He].
  assert (Hp : forall p, Point_wf p ->
                 make_point (Side_value (side p)) (position p) = inr p).
  { intros p Hw. apply make_point_inr.
    split; [now destruct p as [[] pos] | auto]. }
  unfold make_edge. rewrite (Hp _ Hs), (Hp _ He). now destruct e.
Qed.

Lemma make_edge_rebuilds_witness :
  Edge_wf (Build_Edge (Build_Point SOUTH 10) (Build_Point EAST 30))
  /\ make_edge "south" 10 "east" 30
     = inr (Build_Edge (Build_Point SOUTH 10) (Build_Point EAST 30)).
Proof.
  assert (H : Edge_wf (Build_Edge (Build_Point SOUTH 10) (Build_Point EAST 30)))
    by (repeat split; discriminate).
  split; [exact H|].
  exact (make_edge_rebuilds
           (Build_Edge (Build_Point SOUTH 10) (Build_Point EAST 30)) H).
Defined.

(** X19: [parse_side] does not see the case of its argument nor the
    whitespace around it. *)
Theorem parse_side_insensitive (s l r : string) :
  Spec.all_space l = true -> Spec.all_space r = true ->
  parse_side (l ++ s ++ r) = parse_side s
  /\ parse_side (PyStr.lower s) = parse_side s
  /\ parse_side (PyStr.strip s) = parse_side s.
Proof.
  intros Hl Hr.
  assert (Hpad : forall x, PyStr.strip (PyStr.lower (l ++ x ++ r))
                           = PyStr.strip (PyStr.lower x)).
  { intros x. rewrite !lower_app.
    rewrite (lower_all_space l Hl), (lower_all_space r Hr).
    now apply strip_padding. }
  split; [unfold parse_side; now rewrite Hpad|].
  split; [unfold parse_side; now rewrite lower_idem|].
  destruct (lstrip_decomp s) as (l' & Hl' & Hsl').
  destruct (rstrip_decomp (PyStr.lstrip s)) as (r' & Hr' & Hsr').
  fold (PyStr.strip s) in Hr'.
  assert (E : s = (l' ++ PyStr.strip s ++ r')%string) by (rewrite <- Hr'; exact Hl').
  assert (X : PyStr.strip (PyStr.lower s)
              = PyStr.strip (PyStr.lower (PyStr.strip s))).
  { transitivity (PyStr.strip (PyStr.lower (l' ++ PyStr.strip s ++ r'))).
    - now rewrite <- E.
    - rewrite !lower_app.
      rewrite (lower_all_space l' Hsl'), (lower_all_space r' Hsr').
      now apply strip_padding. }
  unfold parse_side. now rewrite X.
Qed.

Lemma parse_side_insensitive_witness :
  Spec.all_space "  "%string = true
  /\ parse_side ("  " ++ "West" ++ "  ")%string = parse_side "West".
Proof.
  split; [reflexivity|].
  exact (proj1 (parse_side_insensitive "West" "  " "  " eq_refl eq_refl)).
Defined.

(** ** The demonstration *)

(** What the four examples under [__main__] print. *)
Example demonstration_outputs :
  (is_valid_path edges1 = Some true /\ is_noncrossing edges1 = Some true
   /\ is_noncrossing_path edges1 = Some true)
  /\ (is_valid_path edges2 = Some false
      /\ is_noncrossing_path edges2 = Some false)
  /\ is_noncrossing edges3 = Some false
  /\ is_noncrossing edges4 = Some true.
Proof. repeat split. Qed.

(** The first example, as the demonstration builds it. *)
Example demonstration_builds_edges1 :
  make_edge "south" 10 "east" 30 = inr (nth 0 edges1 (Build_Edge (Build_Point NORTH 0) (Build_Point NORTH 0)))
  /\ make_edge "north" 30 "west" 10 = inr (nth 1 edges1 (Build_Edge (Build_Point NORTH 0) (Build_Point NORTH 0))).
Proof. split; reflexivity. Qed.
